(** * Affine connections and Riemannian metrics of geomstats

    A shallow embedding of [geomstats/geometry/connection.py] and
    [geomstats/geometry/riemannian_metric.py].

    The numeric backend ([geomstats.backend], imported as [gs]) is an
    external collaborator: it is a type class here, and every definition
    is stated over an arbitrary backend.  A rational instance, with a flat
    connection, Euclidean space and the circle, runs the definitions on
    concrete inputs.

    Arrays are rectangular and their trailing axes have the dimension of
    the manifold; only the leading batch axis, on which the source
    branches, varies.  A one-dimensional array is a [list F], a batch of
    vectors a [list (list F)]. *)

From Stdlib Require Import ZArith QArith Qcanon Qround List Bool String Lia Ring.
From Stdlib Require Import DecimalString Field Qabs.
Import ListNotations.

Close Scope Qc_scope.
Close Scope Q_scope.
Open Scope nat_scope.

(** ** Exceptions and results *)

Inductive exn : Type :=
| ValueError (msg : string)
| RuntimeError (msg : string)
| AssertionError
| NotImplementedError (msg : string)
| KeyError (key : string)
| IndexError.

Inductive result (A : Type) : Type :=
| Ok (a : A)
| Raise (e : exn).
Arguments Ok {A} a.
Arguments Raise {A} e.

Definition rbind {A B} (r : result A) (k : A -> result B) : result B :=
  match r with
  | Ok a => k a
  | Raise e => Raise e
  end.

Declare Scope result_scope.
Delimit Scope result_scope with result.
Notation "x <- c ;; k" := (rbind c (fun x => k))
  (at level 61, c at next level, right associativity) : result_scope.

(** ** The numeric backend *)

Class Backend : Type := {
  F : Type;
  (** a float literal, or a Python [int] promoted to a float *)
  of_Q : Q -> F;
  fadd : F -> F -> F;
  fmul : F -> F -> F;
  fdiv : F -> F -> F;
  fopp : F -> F;
  (** [x ** y] *)
  fpow : F -> F -> F;
  (** [gs.sqrt] on one entry *)
  fsqrt : F -> F;
  (** [x < y] *)
  fltb : F -> F -> bool;
  (** [gs.less_equal] on one entry *)
  fleb : F -> F -> bool;
  (** [gs.maximum] on one entry *)
  fmaximum : F -> F -> F;
  (** [gs.isclose] on one entry *)
  isclose : F -> F -> bool;
  (** [gs.cast(x, gs.float32)] on one entry *)
  cast_float32 : F -> F
}.

Section Arrays.
Context {B : Backend}.

Definition vec : Type := list F.
Definition batch : Type := list vec.
Definition mat : Type := list vec.

Definition of_Z (z : Z) : F := of_Q (inject_Z z).
Definition f0 : F := of_Q 0.
Definition f1 : F := of_Q 1.

(** [gs.sum] of a one-dimensional array *)
Definition fsum (l : list F) : F := fold_right fadd f0 l.

(** [s * v] and [v * s] for a scalar [s] and an array [v] *)
Definition scale_l (s : F) (v : vec) : vec := map (fun x => fmul s x) v.
Definition scale_r (v : vec) (s : F) : vec := map (fun x => fmul x s) v.
(** [v / s] *)
Definition vdiv (v : vec) (s : F) : vec := map (fun x => fdiv x s) v.
(** [-v] *)
Definition vneg (v : vec) : vec := map fopp v.

(** [gs.allclose] on two arrays of one shape *)
Definition allclose (a b : vec) : bool :=
  forallb (fun p => isclose (fst p) (snd p)) (combine a b).

Definition allclose2 (a b : batch) : bool :=
  forallb (fun p => allclose (fst p) (snd p)) (combine a b).

End Arrays.

(** ** connection.py *)

Module Connection.
Section WithBackend.
Context {B : Backend}.
Local Open Scope result_scope.

(** The methods a concrete manifold overrides.  [christoffels p] is
    indexed [k], [i], [j], the contravariant index first.  [exp] takes
    [tangent_vec] then [base_point]; [log] takes [point] then
    [base_point].  The base class computes [exp] with the external
    integrator and [log] with the external bounded optimizer. *)
Record t : Type := {
  christoffels : vec -> list (list vec);
  exp : vec -> vec -> vec;
  log : vec -> vec -> vec
}.

Variable self : t.

(** [gs.einsum("...kij,...i->...kj", gamma, velocity)] *)
Definition einsum_kij_i (gamma : list (list vec)) (velocity : vec) : list vec :=
  map (fun gamma_k =>
         map (fun j =>
                fsum (map (fun p => fmul (nth j (fst p) f0) (snd p))
                          (combine gamma_k velocity)))
             (seq 0 (List.length velocity)))
      gamma.

(** [gs.einsum("...kj,...j->...k", equation, velocity)] *)
Definition einsum_kj_j (equation : list vec) (velocity : vec) : vec :=
  map (fun row => fsum (map (fun p => fmul (fst p) (snd p))
                            (combine row velocity)))
      equation.

Definition geodesic_equation (state : vec * vec) : list vec :=
  let '(position, velocity) := state in
  let gamma := christoffels self position in
  let equation := einsum_kij_i gamma velocity in
  let equation := vneg (einsum_kj_j equation velocity) in
  [velocity; equation].

(** A geodesic path: times to the points reached at these times. *)
Definition path : Type := list F -> list vec.

(** [geodesic], for one initial condition of the vector point type. *)
Definition geodesic (initial_point : vec) (end_point : option vec)
    (initial_tangent_vec : option vec) : result path :=
  initial_tangent_vec <-
    match end_point, initial_tangent_vec with
    | None, None =>
        Raise (ValueError
          "Specify an end point or an initial tangent vector to define the geodesic.")
    | Some end_point, Some initial_tangent_vec =>
        let shooting_tangent_vec := log self end_point initial_point in
        if negb (allclose shooting_tangent_vec initial_tangent_vec)
        then Raise (RuntimeError
          "The shooting tangent vector is too far from the input initial tangent vector.")
        else Ok shooting_tangent_vec
    | Some end_point, None => Ok (log self end_point initial_point)
    | None, Some initial_tangent_vec => Ok initial_tangent_vec
    end ;;
  Ok (fun t => map (fun t_i => exp self (scale_l t_i initial_tangent_vec)
                                   initial_point) t).

Record ladder_step : Type := {
  step_geodesics : list path;
  step_end_point : vec
}.

Definition _pole_ladder_step (base_point next_point base_shoot : vec)
    (return_geodesics : bool) : result ladder_step :=
  let mid_tangent_vector_to_shoot :=
    scale_l (fdiv (of_Q 1) (of_Q 2)) (log self next_point base_point) in
  let mid_point := exp self mid_tangent_vector_to_shoot base_point in
  let tangent_vector_to_shoot := vneg (log self base_shoot mid_point) in
  let end_shoot := exp self tangent_vector_to_shoot mid_point in
  geodesics <-
    (if return_geodesics then
       main_geodesic <- geodesic base_point (Some next_point) None ;;
       diagonal <- geodesic mid_point (Some base_shoot) None ;;
       final_geodesic <- geodesic next_point (Some end_shoot) None ;;
       Ok [main_geodesic; diagonal; final_geodesic]
     else Ok []) ;;
  Ok {| step_geodesics := geodesics; step_end_point := end_shoot |}.

Definition _schild_ladder_step (base_point next_point base_shoot : vec)
    (return_geodesics : bool) : result ladder_step :=
  let mid_tangent_vector_to_shoot :=
    scale_l (fdiv (of_Q 1) (of_Q 2)) (log self next_point base_shoot) in
  let mid_point := exp self mid_tangent_vector_to_shoot base_shoot in
  let tangent_vector_to_shoot := vneg (log self base_point mid_point) in
  let end_shoot := exp self tangent_vector_to_shoot mid_point in
  geodesics <-
    (if return_geodesics then
       main_geodesic <- geodesic base_point (Some next_point) None ;;
       diagonal <- geodesic base_point (Some end_shoot) None ;;
       second_diagonal <- geodesic base_shoot (Some next_point) None ;;
       final_geodesic <- geodesic next_point (Some end_shoot) None ;;
       Ok [main_geodesic; diagonal; second_diagonal; final_geodesic]
     else Ok []) ;;
  Ok {| step_geodesics := geodesics; step_end_point := end_shoot |}.

(** A Python value passed where an integer is expected. *)
Inductive py_value : Type :=
| PyInt (z : Z)
| PyFloat (x : F)
| PyNone.

(** Modelled from the spec: [geomstats.errors.check_integer] is not part
    of the sources at hand.  By the spec [n_rungs] must be a positive
    integer, and anything else is an invalid argument.  The integer is
    handed to the rest of the function. *)
Definition check_integer (n : py_value) (n_name : string) : result Z :=
  match n with
  | PyInt z =>
      if (0 <? z)%Z then Ok z
      else Raise (ValueError (n_name ++ " is required to be a strictly positive integer"))
  | _ => Raise (ValueError (n_name ++ " is required to be a strictly positive integer"))
  end.

(** What the spec calls a positive integer. *)
Definition positive_integer (n : py_value) : bool :=
  match n with
  | PyInt z => (0 <? z)%Z
  | _ => false
  end.

(** [methods[scheme]] *)
Definition methods (scheme : string)
  : result (vec -> vec -> vec -> bool -> result ladder_step) :=
  if String.eqb scheme "pole" then Ok _pole_ladder_step
  else if String.eqb scheme "schild" then Ok _schild_ladder_step
  else Raise (KeyError scheme).

(** The local variables the rung loop updates. *)
Record rung_state : Type := {
  current_point : vec;
  base_shoot : vec;
  trajectory : list (list path)
}.

(** The body of [for i_point in range(n_rungs)]. *)
Definition rung_body
    (single_step : vec -> vec -> vec -> bool -> result ladder_step)
    (base_point direction : vec) (n_rungs : Z) (return_geodesics : bool)
    (st : rung_state) (i_point : Z) : result rung_state :=
  let frac_tan_vector_b :=
    scale_l (fdiv (of_Z (i_point + 1)) (of_Z n_rungs)) direction in
  let next_point := exp self frac_tan_vector_b base_point in
  next_step <- single_step (current_point st) next_point (base_shoot st)
                           return_geodesics ;;
  Ok {| current_point := next_point;
        base_shoot := step_end_point next_step;
        trajectory := trajectory st ++ [step_geodesics next_step] |}.

Fixpoint rung_loop
    (single_step : vec -> vec -> vec -> bool -> result ladder_step)
    (base_point direction : vec) (n_rungs : Z) (return_geodesics : bool)
    (range : list Z) (st : rung_state) : result rung_state :=
  match range with
  | [] => Ok st
  | i_point :: range' =>
      st' <- rung_body single_step base_point direction n_rungs
                       return_geodesics st i_point ;;
      rung_loop single_step base_point direction n_rungs return_geodesics
                range' st'
  end.

(** [range(n)] *)
Definition range (n : Z) : list Z := map Z.of_nat (seq 0 (Z.to_nat n)).

Record ladder : Type := {
  transported_tangent_vec : vec;
  end_point : vec;
  ladder_trajectory : list (list path)
}.

Definition ladder_parallel_transport (tangent_vec base_point direction : vec)
    (n_rungs : py_value) (scheme : string) (alpha : F)
    (return_geodesics : bool) : result ladder :=
  n_rungs <- check_integer n_rungs "n_rungs" ;;
  if fltb alpha (of_Q 1)
  then Raise (ValueError "alpha must be greater or equal to one")
  else
    let current_point0 := base_point in
    let next_tangent_vec := vdiv tangent_vec (fpow (of_Z n_rungs) alpha) in
    single_step <- methods scheme ;;
    let base_shoot0 := exp self next_tangent_vec current_point0 in
    st <- rung_loop single_step base_point direction n_rungs return_geodesics
                    (range n_rungs)
                    {| current_point := current_point0;
                       base_shoot := base_shoot0;
                       trajectory := [] |} ;;
    let transported_tangent_vec := log self (base_shoot st) (current_point st) in
    let transported_tangent_vec :=
      if ((n_rungs mod 2 =? 1)%Z && String.eqb scheme "pole")%bool
      then scale_r transported_tangent_vec (of_Q (-1))
      else transported_tangent_vec in
    let transported_tangent_vec :=
      scale_r transported_tangent_vec (fpow (of_Z n_rungs) alpha) in
    Ok {| transported_tangent_vec := transported_tangent_vec;
          end_point := current_point st;
          ladder_trajectory := trajectory st |}.

End WithBackend.
End Connection.

(** ** riemannian_metric.py *)

Module RiemannianMetric.
Section WithBackend.
Context {B : Backend}.

(** An array of one or of two axes, and an array of two or of three. *)
Inductive arr : Type :=
| A1 (v : vec)
| A2 (b : batch).

Inductive marr : Type :=
| M2 (m : mat)
| M3 (ms : list mat).

(** [gs.to_ndarray(x, to_ndim=2)] and [gs.to_ndarray(x, to_ndim=3)] *)
Definition to_ndarray2 (a : arr) : batch :=
  match a with
  | A1 v => [v]
  | A2 b => b
  end.

Definition to_ndarray3 (m : marr) : list mat :=
  match m with
  | M2 m => [m]
  | M3 ms => ms
  end.

(** [gs.to_ndarray(x, to_ndim=2, axis=1)] *)
Definition to_column (v : vec) : batch := map (fun x => [x]) v.

Definition to_ndarray2_axis1 (a : arr) : batch :=
  match a with
  | A1 v => to_column v
  | A2 b => b
  end.

(** [gs.squeeze(x, axis=0)] of an array whose first axis has length one *)
Definition squeeze0 {A} (l : list (list A)) : list A := hd [] l.

(** What a call leaves behind: the calls of the methods of the metric,
    in order, and the warnings and messages. *)
Inductive event : Type :=
| EvExp (tangent_vec base_point : arr)
| EvLog (point base_point : arr)
| EvSquaredDist (point_a point_b : arr)
| EvDist (point_a point_b : arr)
| EvWarn (n_max_iterations : nat)
| EvPrint (n_max_iterations : nat).

Definition M (A : Type) : Type := list event -> result A * list event.

Definition ret {A} (a : A) : M A := fun tr => (Ok a, tr).
Definition raise {A} (e : exn) : M A := fun tr => (Raise e, tr).
Definition tell (ev : event) : M unit := fun tr => (Ok tt, tr ++ [ev]).
Definition bind {A C} (m : M A) (k : A -> M C) : M C :=
  fun tr =>
    match m tr with
    | (Ok a, tr') => k a tr'
    | (Raise e, tr') => (Raise e, tr')
    end.
Definition lift {A} (r : result A) : M A := fun tr => (r, tr).

Declare Scope metric_scope.
Delimit Scope metric_scope with metric.
Notation "x <- c ;; k" := (bind c (fun x => k))
  (at level 61, c at next level, right associativity) : metric_scope.
Notation "c ;; k" := (bind c (fun _ => k))
  (at level 61, right associativity) : metric_scope.
Local Open Scope metric_scope.

(** The methods a concrete metric overrides; the base class raises
    "not implemented" in each.  [exp] takes [tangent_vec] then
    [base_point]; [log] takes [point] then [base_point]; both return a
    batch. *)
Record t : Type := {
  inner_product_matrix : arr -> marr;
  exp : arr -> arr -> batch;
  log : arr -> arr -> batch
}.

Variable self : t.

Definition call_exp (tangent_vec base_point : arr) : M batch :=
  tell (EvExp tangent_vec base_point) ;;
  ret (exp self tangent_vec base_point).

Definition call_log (point base_point : arr) : M batch :=
  tell (EvLog point base_point) ;;
  ret (log self point base_point).

(** The contractions of [inner_product]. *)
Definition dot (u v : vec) : F :=
  fsum (map (fun p => fmul (fst p) (snd p)) (combine u v)).

(** [sum_j a_j m_jk], for each [k] *)
Definition vecmat (a : vec) (m : mat) : vec :=
  map (fun k => fsum (map (fun p => fmul (fst p) (nth k (snd p) f0))
                          (combine a m)))
      (seq 0 (List.length (hd [] m))).

Definition einsum_j_njk (a : vec) (ms : list mat) : batch :=
  map (fun m => vecmat a m) ms.
Definition einsum_nj_jk (a : batch) (m : mat) : batch :=
  map (fun a_n => vecmat a_n m) a.
Definition einsum_nj_njk (a : batch) (ms : list mat) : batch :=
  map (fun p => vecmat (fst p) (snd p)) (combine a ms).
Definition einsum_k_nk (aux : vec) (b : batch) : vec :=
  map (fun b_n => dot aux b_n) b.
Definition einsum_nk_k (aux : batch) (b : vec) : vec :=
  map (fun aux_n => dot aux_n b) aux.
Definition einsum_nk_nk (aux b : batch) : vec :=
  map (fun p => dot (fst p) (snd p)) (combine aux b).

Definition inner_product (tangent_vec_a tangent_vec_b base_point : arr)
  : result batch :=
  let tangent_vec_a := to_ndarray2 tangent_vec_a in
  let tangent_vec_b := to_ndarray2 tangent_vec_b in
  let n_tangent_vec_a := List.length tangent_vec_a in
  let n_tangent_vec_b := List.length tangent_vec_b in
  let inner_prod_mat := to_ndarray3 (inner_product_matrix self base_point) in
  let n_mats := List.length inner_prod_mat in
  rbind
    (if negb (n_tangent_vec_a =? n_mats) then
       if n_tangent_vec_a =? 1 then
         Ok (einsum_j_njk (squeeze0 tangent_vec_a) inner_prod_mat)
       else if n_mats =? 1 then
         Ok (einsum_nj_jk tangent_vec_a (squeeze0 inner_prod_mat))
       else Raise (ValueError "Shape mismatch for einsum.")
     else Ok (einsum_nj_njk tangent_vec_a inner_prod_mat))
    (fun aux =>
  let n_auxs := List.length aux in
  rbind
    (if negb (n_tangent_vec_b =? n_auxs) then
       if n_auxs =? 1 then
         Ok (einsum_k_nk (squeeze0 aux) tangent_vec_b)
       else if n_tangent_vec_b =? 1 then
         Ok (einsum_nk_k aux (squeeze0 tangent_vec_b))
       else Raise (ValueError "Shape mismatch for einsum.")
     else Ok (einsum_nk_nk aux tangent_vec_b))
    (fun inner_prod =>
  Ok (to_column inner_prod))).

Definition squared_norm (vector base_point : arr) : result batch :=
  inner_product vector vector base_point.

(** [gs.sqrt] of an array of two axes *)
Definition sqrt2 (b : batch) : batch := map (map fsqrt) b.

Definition norm (vector base_point : arr) : result batch :=
  rbind (squared_norm vector base_point) (fun sq_norm => Ok (sqrt2 sq_norm)).

Definition squared_dist (point_a point_b : arr) : M batch :=
  tell (EvSquaredDist point_a point_b) ;;
  log <- call_log point_b point_a ;;
  sq_dist <- lift (squared_norm (A2 log) point_a) ;;
  ret sq_dist.

Definition dist (point_a point_b : arr) : M batch :=
  tell (EvDist point_a point_b) ;;
  sq_dist <- squared_dist point_a point_b ;;
  ret (sqrt2 sq_dist).

(** [gs.allclose] of a batch and an array.  An array of one axis, or of
    one row, is broadcast over the batch, and a batch of one row over the
    array; two batches of different sizes, none of them one, cannot be
    broadcast together, and the comparison raises. *)
Definition allclose_arr (s : batch) (a : arr) : result bool :=
  match a with
  | A1 v => Ok (forallb (fun row => allclose row v) s)
  | A2 b =>
      if List.length b =? 1 then
        Ok (forallb (fun row => allclose row (squeeze0 b)) s)
      else if List.length s =? 1 then
        Ok (forallb (fun v => allclose (squeeze0 s) v) b)
      else if List.length s =? List.length b then Ok (allclose2 s b)
      else Raise (ValueError "operands could not be broadcast together")
  end.

(** [gs.einsum('il,nk->ik', t, initial_tangent_vec)] *)
Definition einsum_il_nk (t : batch) (v : batch) : batch :=
  map (fun t_i =>
         map (fun k => fsum (map (fun t_il =>
                          fsum (map (fun v_n => fmul t_il (nth k v_n f0)) v))
                        t_i))
             (seq 0 (List.length (hd [] v))))
      t.

Definition path : Type := vec -> M batch.

(** [geodesic], for the point type ['vector']: points and tangent
    vectors are arrays of one axis, or of two for a batch.  The times
    given to the path are cast to [float32] before anything else. *)
Definition geodesic (initial_point : arr) (end_point : option arr)
    (initial_tangent_vec : option arr) : M path :=
  let initial_point := to_ndarray2 initial_point in
  initial_tangent_vec <-
    match end_point, initial_tangent_vec with
    | None, None =>
        raise (ValueError
          "Specify an end point or an initial tangent vector to define the geodesic.")
    | Some end_point, Some initial_tangent_vec =>
        let end_point := to_ndarray2 end_point in
        shooting_tangent_vec <- call_log (A2 end_point) (A2 initial_point) ;;
        close <- lift (allclose_arr shooting_tangent_vec initial_tangent_vec) ;;
        if close
        then ret (A2 shooting_tangent_vec)
        else raise AssertionError
    | Some end_point, None =>
        let end_point := to_ndarray2 end_point in
        shooting_tangent_vec <- call_log (A2 end_point) (A2 initial_point) ;;
        ret (A2 shooting_tangent_vec)
    | None, Some initial_tangent_vec => ret initial_tangent_vec
    end ;;
  let initial_tangent_vec := to_ndarray2 initial_tangent_vec in
  ret (fun t =>
         let t := map cast_float32 t in
         let t := to_column t in
         let tangent_vecs := einsum_il_nk t initial_tangent_vec in
         call_exp (A2 tangent_vecs) (A2 initial_point)).

(** [gs.einsum('nk,nj->j', weights, x)] *)
Definition einsum_nk_nj (weights x : batch) : vec :=
  map (fun j =>
         fsum (map (fun p =>
                 fsum (map (fun w_nk => fmul w_nk (nth j (snd p) f0)) (fst p)))
               (combine weights x)))
      (seq 0 (List.length (hd [] x))).

(** [gs.ones((n, 1))] *)
Definition ones (n : nat) : batch := repeat [f1] n.

(** [gs.sum] of an array of two axes *)
Definition sum2 (b : batch) : F := fsum (List.concat b).

Definition weights_or_ones (weights : option arr) (n_points : nat) : batch :=
  match weights with
  | None => ones n_points
  | Some weights => to_ndarray2_axis1 weights
  end.

(** [variance] when [base_point] is given. *)
Definition variance_at (points : arr) (weights : option arr)
    (base_point : arr) : M batch :=
  let points := to_ndarray2 points in
  let n_points := List.length points in
  let weights := weights_or_ones weights n_points in
  let sum_weights := sum2 weights in
  sq_dists <- squared_dist base_point (A2 points) ;;
  let variance := map (fun x => fadd (of_Q 0) x) (einsum_nk_nj weights sq_dists) in
  let variance := vdiv variance sum_weights in
  ret (to_column variance).

(** Modelled from the spec: [gs.while_loop] belongs to the numeric
    backend and is not part of the sources at hand.  By the spec the loop
    of [mean] is an explicit bounded loop whose exit condition is
    evaluated at each iteration: converged, or iteration budget
    exhausted. *)
Fixpoint while_loop {S : Type} (cond : S -> bool) (body : S -> M S)
    (loop_vars : S) (maximum_iterations : nat) : M S :=
  match maximum_iterations with
  | O => ret loop_vars
  | Datatypes.S budget =>
      if cond loop_vars
      then loop_vars <- body loop_vars ;; while_loop cond body loop_vars budget
      else ret loop_vars
  end.

(** [x[0, 0]] *)
Definition at00 (x : batch) : F := nth 0 (nth 0 x []) f0.

Record mean_vars : Type := {
  iteration : nat;
  mean_of : batch;
  variance_of : batch;
  sq_dist_of : batch
}.

Definition while_loop_cond (epsilon : F) (vars : mean_vars) : bool :=
  let res :=
    negb (isclose (at00 (variance_of vars)) (of_Q 0)
          || fleb (at00 (sq_dist_of vars))
                  (fmul epsilon (at00 (variance_of vars)))) in
  res || (iteration vars =? 0).

Definition while_loop_body (points weights : batch) (sum_weights : F)
    (vars : mean_vars) : M mean_vars :=
  let mean := mean_of vars in
  logs <- call_log (A2 points) (A2 mean) ;;
  let tangent_mean := einsum_nk_nj weights logs in
  let tangent_mean := vdiv tangent_mean sum_weights in
  mean_next <- call_exp (A1 tangent_mean) (A2 mean) ;;
  sq_dist <- squared_dist (A2 mean_next) (A2 mean) ;;
  variance <- variance_at (A2 points) (Some (A2 weights)) (A2 mean_next) ;;
  ret {| iteration := iteration vars + 1;
         mean_of := mean_next;
         variance_of := variance;
         sq_dist_of := sq_dist |}.

(** [mean], for the point type ['vector']. *)
Definition mean (points : arr) (weights : option arr)
    (n_max_iterations : nat) (epsilon : F) : M batch :=
  let points := to_ndarray2 points in
  let n_points := List.length points in
  let weights := weights_or_ones weights n_points in
  let sum_weights := sum2 weights in
  match points with
  | [] => raise IndexError
  | points_0 :: _ =>
      let mean := to_ndarray2 (A1 points_0) in
      if n_points =? 1 then ret mean
      else
        vars <- while_loop (while_loop_cond epsilon)
                  (while_loop_body points weights sum_weights)
                  {| iteration := 0;
                     mean_of := mean;
                     variance_of := [[of_Q 0]];
                     sq_dist_of := [[of_Q 0]] |}
                  n_max_iterations ;;
        (if iteration vars =? n_max_iterations
         then tell (EvWarn n_max_iterations) else ret tt) ;;
        ret (mean_of vars)
  end.

Definition variance (points : arr) (weights : option arr)
    (base_point : option arr) : M batch :=
  match base_point with
  | Some base_point => variance_at points weights base_point
  | None =>
      let points2 := to_ndarray2 points in
      let weights2 := weights_or_ones weights (List.length points2) in
      base_point <- mean (A2 points2) (Some (A2 weights2)) 32
                         (of_Q (1 # 10000)) ;;
      variance_at points weights (A2 base_point)
  end.

(** [gs.linalg.norm] of a vector *)
Definition linalg_norm (v : vec) : F :=
  fsqrt (fsum (map (fun x => fmul x x) v)).

(** Python's [max(a, b)] *)
Definition py_max (a b : F) : F := if fltb a b then b else a.

Record descent_vars : Type := {
  current_mean : arr;
  current_tangent_mean : vec;
  norm_current_tangent_mean : F;
  tau : F;
  iter : nat
}.

(** The body of the descent loop of [adaptive_gradientdescent_mean]. *)
Definition descent_body (points weights : batch) (sum_weights : F)
    (vars : descent_vars) : M descent_vars :=
  let iter := iter vars + 1 in
  let shooting_vector :=
    to_ndarray2 (A1 (scale_l (tau vars) (current_tangent_mean vars))) in
  next_mean <- call_exp (A2 shooting_vector) (current_mean vars) ;;
  logs <- call_log (A2 points) (A2 next_mean) ;;
  let next_tangent_mean := einsum_nk_nj weights logs in
  let next_tangent_mean := vdiv next_tangent_mean sum_weights in
  let norm_next_tangent_mean := linalg_norm next_tangent_mean in
  if fltb norm_next_tangent_mean (norm_current_tangent_mean vars) then
    ret {| current_mean := A2 next_mean;
           current_tangent_mean := next_tangent_mean;
           norm_current_tangent_mean := norm_next_tangent_mean;
           tau := py_max (of_Q 1) (fmul (of_Q (10511111 # 10000000)) (tau vars));
           iter := iter |}
  else
    ret {| current_mean := current_mean vars;
           current_tangent_mean := current_tangent_mean vars;
           norm_current_tangent_mean := norm_current_tangent_mean vars;
           tau := fmul (tau vars) (of_Q (8 # 10));
           iter := iter |}.

(** [while norm_current_tangent_mean > epsilon and iter < n_max_iterations];
    [budget] is [n_max_iterations - iter]. *)
Fixpoint descent_loop (points weights : batch) (sum_weights epsilon : F)
    (budget : nat) (vars : descent_vars) : M descent_vars :=
  match budget with
  | O => ret vars
  | S budget =>
      if fltb epsilon (norm_current_tangent_mean vars) then
        vars <- descent_body points weights sum_weights vars ;;
        descent_loop points weights sum_weights epsilon budget vars
      else ret vars
  end.

(** The descent of [adaptive_gradientdescent_mean], with all the loop
    variables at its end. *)
Definition descent (points : batch) (weights : option arr)
    (n_max_iterations : nat) (epsilon : F) (current_mean : vec)
  : M descent_vars :=
  let n_points := List.length points in
  let weights := weights_or_ones weights n_points in
  let sum_weights := sum2 weights in
  logs <- call_log (A2 points) (A1 current_mean) ;;
  let current_tangent_mean := einsum_nk_nj weights logs in
  let current_tangent_mean := vdiv current_tangent_mean sum_weights in
  let norm_current_tangent_mean := linalg_norm current_tangent_mean in
  descent_loop points weights sum_weights epsilon n_max_iterations
    {| current_mean := A1 current_mean;
       current_tangent_mean := current_tangent_mean;
       norm_current_tangent_mean := norm_current_tangent_mean;
       tau := of_Q 1;
       iter := 0 |}.

Definition adaptive_gradientdescent_mean (points : batch)
    (weights : option arr) (n_max_iterations : nat) (epsilon : F)
    (init_points : batch) : M batch :=
  let n_points := List.length points in
  let n_init := List.length init_points in
  first_mean <-
    (if n_init =? 0 then
       match points with
       | [] => raise IndexError
       | points_0 :: _ => ret points_0
       end
     else ret (hd [] init_points)) ;;
  if n_points =? 1 then ret (to_ndarray2 (A1 first_mean))
  else
    vars <- descent points weights n_max_iterations epsilon first_mean ;;
    (if iter vars =? n_max_iterations
     then tell (EvPrint n_max_iterations) else ret tt) ;;
    ret (to_ndarray2 (current_mean vars)).

(** [gs.amax] of an array of two axes; it raises on an empty array. *)
Definition amax (b : batch) : result F :=
  match List.concat b with
  | [] => Raise (ValueError "zero-size array to reduction operation maximum")
  | x :: xs => Ok (fold_left fmaximum xs x)
  end.

(** The loop of [diameter], over [range(n_points - 1)]. *)
Fixpoint diameter_loop (points : batch) (range : list nat) (diameter : F)
  : M F :=
  match range with
  | [] => ret diameter
  | i :: range' =>
      dist_to_neighbors <- dist (A1 (nth i points [])) (A2 (skipn (i + 1) points)) ;;
      dist_to_farthest_neighbor <- lift (amax dist_to_neighbors) ;;
      diameter_loop points range' (fmaximum diameter dist_to_farthest_neighbor)
  end.

Definition diameter (points : batch) : M F :=
  let n_points := List.length points in
  diameter_loop points (seq 0 (n_points - 1)) (of_Q 0).

(** *** Vocabulary of the statements *)

(** Two batch sizes can be contracted together: they are equal, or one of
    them is one. *)
Definition broadcastable (n m : nat) : bool :=
  (n =? m) || (n =? 1) || (m =? 1).

(** The batch size of the contraction of [n] vectors with [m] matrices. *)
Definition contracted_size (n m : nat) : nat :=
  if n =? m then n else if n =? 1 then m else n.

(** The first contraction of [inner_product], on its own. *)
Definition first_contraction (a : batch) (ms : list mat) : result batch :=
  if negb (List.length a =? List.length ms) then
    if List.length a =? 1 then Ok (einsum_j_njk (squeeze0 a) ms)
    else if List.length ms =? 1 then Ok (einsum_nj_jk a (squeeze0 ms))
    else Raise (ValueError "Shape mismatch for einsum.")
  else Ok (einsum_nj_njk a ms).

(** The operand a contraction takes at index [n] of the batch axis: the
    only one of a batch of size one, which is broadcast, and the one at
    index [n] otherwise. *)
Definition broadcast_get {A} (l : list A) (d : A) (n : nat) : A :=
  if List.length l =? 1 then hd d l else nth n l d.

(** [sum_k (sum_j a_j m_jk) b_k] in dimension [d], the two sums written
    out with the addition and the product of the backend. *)
Definition quadratic_form (d : nat) (a : vec) (m : mat) (b : vec) : F :=
  fold_right fadd (of_Q 0)
    (map (fun k =>
            fmul (fold_right fadd (of_Q 0)
                    (map (fun j => fmul (nth j a (of_Q 0))
                                        (nth k (nth j m []) (of_Q 0)))
                         (seq 0 d)))
                 (nth k b (of_Q 0)))
         (seq 0 d)).

(** The pairs of a point with a later point of the batch. *)
Fixpoint later_pairs (points : batch) : list (vec * vec) :=
  match points with
  | [] => []
  | p :: rest => map (fun q => (p, q)) rest ++ later_pairs rest
  end.

(** [dist] of two single points, as a number. *)
Definition dist1 (pq : vec * vec) : F :=
  match dist (A1 (fst pq)) (A1 (snd pq)) [] with
  | (Ok d, _) => at00 d
  | (Raise _, _) => of_Q 0
  end.

(** The calls [diameter] makes: one [dist] for each point but the last,
    against the points after it. *)
Fixpoint diameter_events (points : batch) : list event :=
  match points with
  | [] => []
  | p :: rest =>
      match rest with
      | [] => []
      | _ :: _ =>
          [EvDist (A1 p) (A2 rest); EvSquaredDist (A1 p) (A2 rest);
           EvLog (A2 rest) (A1 p)] ++ diameter_events rest
      end
  end.

End WithBackend.
End RiemannianMetric.

(** ** A rational backend and concrete manifolds

    Exact rationals in place of floats: [sqrt] is exact on squares of
    rationals and rounds down otherwise, [x ** y] takes the integer part
    of [y].  The cast to [float32] rounds to the nearest number with a
    significand of 24 bits, ties to the even significand; the exponent
    is not bounded. *)

Module Rational.

Definition Qc_ltb (x y : Qc) : bool :=
  match Qccompare x y with
  | Lt => true
  | _ => false
  end.

Definition Qc_leb (x y : Qc) : bool :=
  match Qccompare x y with
  | Gt => false
  | _ => true
  end.

Definition Qc_abs (x : Qc) : Qc :=
  if Qc_ltb x (Q2Qc 0) then Qcopp x else x.

Definition Qc_pow (x y : Qc) : Qc :=
  let e := Qfloor (this y) in
  if (0 <=? e)%Z then Qcpower x (Z.to_nat e)
  else Qcinv (Qcpower x (Z.to_nat (- e))).

Definition Qc_sqrt (x : Qc) : Qc :=
  Q2Qc (Z.sqrt (Qnum (this x)) # Pos.sqrt (Qden (this x))).

(** The nearest binary number with a significand of 24 bits: with
    [2 ^ e <= |q| < 2 ^ (e + 1)], the multiple of [2 ^ (e - 23)] nearest
    to [q]. *)
Definition Q_float32 (q : Q) : Q :=
  match Qnum q with
  | Z0 => 0%Q
  | _ =>
      let a := Qabs q in
      let e0 := (Z.log2 (Qnum a) - Z.log2 (Zpos (Qden a)))%Z in
      let e := if Qle_bool (Qpower 2 e0) a then e0 else (e0 - 1)%Z in
      let ulp := Qpower 2 (e - 23) in
      let x := (a / ulp)%Q in
      let m := Qfloor x in
      let m :=
        match Qcompare (x - inject_Z m) (1 # 2) with
        | Lt => m
        | Gt => (m + 1)%Z
        | Eq => if Z.even m then m else (m + 1)%Z
        end in
      let y := (inject_Z m * ulp)%Q in
      if (Qnum q <? 0)%Z then Qopp y else y
  end.

Definition Qc_float32 (x : Qc) : Qc := Q2Qc (Q_float32 (this x)).

Definition Qc_isclose (x y : Qc) : bool :=
  Qc_leb (Qc_abs (Qcminus x y))
         (Qcplus (Q2Qc (1 # 100000000))
                 (Qcmult (Q2Qc (1 # 100000)) (Qc_abs y))).

#[export] Instance QcBackend : Backend := {|
  F := Qc;
  of_Q := Q2Qc;
  fadd := Qcplus;
  fmul := Qcmult;
  fdiv := Qcdiv;
  fopp := Qcopp;
  fpow := Qc_pow;
  fsqrt := Qc_sqrt;
  fltb := Qc_ltb;
  fleb := Qc_leb;
  fmaximum := fun x y => if Qc_ltb x y then y else x;
  isclose := Qc_isclose;
  cast_float32 := Qc_float32
|}.

(** Rational literals of a vector. *)
Definition qv (l : list Q) : list Qc := map Q2Qc l.

Definition vadd (u v : list Qc) : list Qc :=
  map (fun p => Qcplus (fst p) (snd p)) (combine u v).
Definition vsub (u v : list Qc) : list Qc :=
  map (fun p => Qcminus (fst p) (snd p)) (combine u v).

(** NumPy broadcasting of a binary operation over two batches. *)
Definition broadcast (f : list Qc -> list Qc -> list Qc)
    (a b : list (list Qc)) : list (list Qc) :=
  match a, b with
  | [a_0], _ => map (fun b_n => f a_0 b_n) b
  | _, [b_0] => map (fun a_n => f a_n b_0) a
  | _, _ => map (fun p => f (fst p) (snd p)) (combine a b)
  end.

(** The flat connection of the plane with a constant, non-zero choice of
    Christoffel symbols to exercise the geodesic equation, and the
    straight-line exponential and logarithm. *)
Definition gamma2 : list (list (list Qc)) :=
  ([ [qv [1; 2]; qv [3; 4]]; [qv [0; -1]; qv [5; 1 # 2]] ])%Q.

Definition flat_connection : @Connection.t QcBackend := {|
  Connection.christoffels := fun _ => gamma2;
  Connection.exp := fun tangent_vec base_point => vadd base_point tangent_vec;
  Connection.log := fun point base_point => vsub point base_point
|}.

Definition identity (d : nat) : list (list Qc) :=
  map (fun i => map (fun j => if i =? j then Q2Qc 1 else Q2Qc 0) (seq 0 d))
      (seq 0 d).

(** A metric with one inner-product matrix for each base point. *)
Definition pointwise_matrix (base_point : @RiemannianMetric.arr QcBackend)
  : @RiemannianMetric.marr QcBackend :=
  match base_point with
  | RiemannianMetric.A1 p => RiemannianMetric.M2 (identity (List.length p))
  | RiemannianMetric.A2 ps =>
      RiemannianMetric.M3 (map (fun p => identity (List.length p)) ps)
  end.

(** Euclidean space. *)
Definition euclidean_metric : @RiemannianMetric.t QcBackend := {|
  RiemannianMetric.inner_product_matrix := pointwise_matrix;
  RiemannianMetric.exp := fun tangent_vec base_point =>
    broadcast vadd (RiemannianMetric.to_ndarray2 base_point)
                   (RiemannianMetric.to_ndarray2 tangent_vec);
  RiemannianMetric.log := fun point base_point =>
    broadcast vsub (RiemannianMetric.to_ndarray2 point)
                   (RiemannianMetric.to_ndarray2 base_point)
|}.

(** The circle of length one, the reals modulo the integers: points are
    taken in [0, 1) and tangent vectors in [-1/2, 1/2). *)
Definition frac (x : Qc) : Qc :=
  Qcminus x (Q2Qc (inject_Z (Qfloor (this x)))).
Definition wrap (x : Qc) : Qc :=
  Qcminus x (Q2Qc (inject_Z (Qfloor (this (Qcplus x (Q2Qc (1 # 2))))))).

Definition circle_metric : @RiemannianMetric.t QcBackend := {|
  RiemannianMetric.inner_product_matrix := pointwise_matrix;
  RiemannianMetric.exp := fun tangent_vec base_point =>
    map (map frac)
        (broadcast vadd (RiemannianMetric.to_ndarray2 base_point)
                        (RiemannianMetric.to_ndarray2 tangent_vec));
  RiemannianMetric.log := fun point base_point =>
    map (map wrap)
        (broadcast vsub (RiemannianMetric.to_ndarray2 point)
                        (RiemannianMetric.to_ndarray2 base_point))
|}.

(** Four points of the circle, and the loop variables of
    [adaptive_gradientdescent_mean] on them before the first iteration. *)
Definition circle_points : list (list Qc) :=
  [qv [0]%Q; qv [19 # 50]%Q; qv [19 # 50]%Q; qv [57 # 100]%Q].

Definition circle_start : @RiemannianMetric.descent_vars QcBackend :=
  {| RiemannianMetric.current_mean := RiemannianMetric.A1 (qv [0]%Q);
     RiemannianMetric.current_tangent_mean := qv [33 # 400]%Q;
     RiemannianMetric.norm_current_tangent_mean := Q2Qc (33 # 400);
     RiemannianMetric.tau := Q2Qc 1;
     RiemannianMetric.iter := 0 |}.

(** The loop variables at the end of a run of the descent. *)
Definition final_vars
    (run : result (@RiemannianMetric.descent_vars QcBackend) *
           list (@RiemannianMetric.event QcBackend))
  : @RiemannianMetric.descent_vars QcBackend :=
  match fst run with
  | Ok vars => vars
  | Raise _ => circle_start
  end.

End Rational.

(** ** Further vocabulary and the constructor of [Connection] *)

Section VectorSpace.
Context {B : Backend}.

(** [u + v] and [u - v] of two arrays of one shape *)
Definition vec_add (u v : vec) : vec :=
  map (fun p => fadd (fst p) (snd p)) (combine u v).
Definition vec_sub (u v : vec) : vec :=
  map (fun p => fadd (fst p) (fopp (snd p))) (combine u v).

End VectorSpace.

(** [Connection.__init__]: the attributes of a connection. *)
Module ConnectionInit.
Section WithBackend.
Context {B : Backend}.
Local Open Scope result_scope.

Record attributes : Type := {
  dim : Z;
  shape : list Connection.py_value;
  default_point_type : string;
  default_coords_type : string
}.

(** The decimal digits of a key of [POINT_TYPES], for the [KeyError]. *)
Definition key_of (n : nat) : string :=
  DecimalString.NilEmpty.string_of_uint (Nat.to_uint n).

(** [POINT_TYPES = {1: "vector", 2: "matrix", 3: "matrix"}], looked up at
    [len(shape)]. *)
Definition POINT_TYPES (n : nat) : result string :=
  match n with
  | 1 => Ok "vector"%string
  | 2 => Ok "matrix"%string
  | 3 => Ok "matrix"%string
  | _ => Raise (KeyError (key_of n))
  end.

(** Modelled from the spec: [geomstats.errors.check_parameter_accepted_values]
    is not part of the sources at hand.  By the spec the point type is
    one of [vector] and [matrix], and anything else is an invalid
    argument. *)
Definition check_parameter_accepted_values (param param_name : string)
    (accepted_values : list string) : result unit :=
  if existsb (String.eqb param) accepted_values then Ok tt
  else Raise (ValueError (param_name ++ " is not an accepted value")).

Definition __init__ (dim : Connection.py_value)
    (shape : option (list Connection.py_value))
    (default_point_type : option string) (default_coords_type : string)
  : result attributes :=
  let shape :=
    match shape with
    | None => [dim]
    | Some shape => shape
    end in
  default_point_type <-
    match default_point_type with
    | None => POINT_TYPES (List.length shape)
    | Some default_point_type => Ok default_point_type
    end ;;
  dim <- Connection.check_integer dim "dim" ;;
  _ <- check_parameter_accepted_values default_point_type "default_point_type"
         ["vector"; "matrix"]%string ;;
  Ok {| dim := dim;
        shape := shape;
        default_point_type := default_point_type;
        default_coords_type := default_coords_type |}.

End WithBackend.
End ConnectionInit.

(** [closest_neighbor_index] of riemannian_metric.py. *)
Section ClosestNeighbor.
Context {B : Backend}.

(** The scan of [gs.argmin]: the index of the first least entry seen so
    far. *)
Fixpoint argmin_scan (best : F) (best_index index : nat) (l : list F) : nat :=
  match l with
  | [] => best_index
  | x :: l' =>
      if fltb x best then argmin_scan x index (S index) l'
      else argmin_scan best best_index (S index) l'
  end.

(** [gs.argmin] of an array of two axes: the index, in the flattened
    array, of the first least entry; it raises on an empty array. *)
Definition argmin (b : batch) : result nat :=
  match List.concat b with
  | [] => Raise (ValueError "attempt to get argmin of an empty sequence")
  | x :: xs => Ok (argmin_scan x 0 1 xs)
  end.

Definition closest_neighbor_index (self : RiemannianMetric.t)
    (point neighbors : RiemannianMetric.arr) : RiemannianMetric.M nat :=
  RiemannianMetric.bind (RiemannianMetric.dist self point neighbors)
    (fun dist => RiemannianMetric.lift (argmin dist)).

End ClosestNeighbor.

(** The plane with all Christoffel symbols zero. *)
Module RationalFlat.
Import Rational.

Definition zeros2 : list (list (list Qc)) :=
  repeat (repeat (repeat (Q2Qc 0) 2) 2) 2.

Definition straight_connection : @Connection.t QcBackend := {|
  Connection.christoffels := fun _ => zeros2;
  Connection.exp := fun tangent_vec base_point => vadd base_point tangent_vec;
  Connection.log := fun point base_point => vsub point base_point
|}.

End RationalFlat.

(** * Properties of connection.py *)

Section ConnectionFacts.
Context {B : Backend}.
Variable self : Connection.t.

Import Connection.

Lemma geodesic_end_point_ok (initial_point end_point : vec) :
  exists p, geodesic self initial_point (Some end_point) None = Ok p.
Proof. unfold geodesic; cbn; eauto. Qed.

Lemma pole_ladder_step_ok (base_point next_point base_shoot : vec) rg :
  exists s, _pole_ladder_step self base_point next_point base_shoot rg = Ok s.
Proof. destruct rg; cbn; eauto. Qed.

Lemma schild_ladder_step_ok (base_point next_point base_shoot : vec) rg :
  exists s, _schild_ladder_step self base_point next_point base_shoot rg = Ok s.
Proof. destruct rg; cbn; eauto. Qed.

Lemma methods_ok (scheme : string) :
  scheme = "pole"%string \/ scheme = "schild"%string ->
  exists single_step,
    methods self scheme = Ok single_step /\
    forall a b c rg, exists s, single_step a b c rg = Ok s.
Proof.
  intros [-> | ->]; cbn.
  - exists (_pole_ladder_step self); split; [reflexivity | apply pole_ladder_step_ok].
  - exists (_schild_ladder_step self); split; [reflexivity | apply schild_ladder_step_ok].
Qed.

Lemma rung_loop_ok single_step base_point direction n_rungs rg :
  (forall a b c rg, exists s : ladder_step, single_step a b c rg = Ok s) ->
  forall l st, exists st',
    rung_loop self single_step base_point direction n_rungs rg l st = Ok st'.
Proof.
  intros Hstep l; induction l as [| i l IH]; intros st; cbn.
  - eauto.
  - unfold rung_body.
    destruct (Hstep (current_point st)
                (exp self (scale_l (fdiv (of_Z (i + 1)) (of_Z n_rungs)) direction)
                     base_point)
                (base_shoot st) rg) as [s Hs].
    rewrite Hs; cbn. apply IH.
Qed.

Lemma rung_loop_current_point single_step base_point direction n_rungs rg :
  forall l st st',
    l <> [] ->
    rung_loop self single_step base_point direction n_rungs rg l st = Ok st' ->
    current_point st' =
      exp self (scale_l (fdiv (of_Z (last l 0%Z + 1)) (of_Z n_rungs)) direction)
          base_point.
Proof.
  induction l as [| i l IH]; intros st st' Hne Hrun; [congruence |].
  cbn [rung_loop] in Hrun. unfold rung_body in Hrun.
  destruct (single_step _ _ _ _) as [s | e]; cbn in Hrun; [| discriminate].
  destruct l as [| j l].
  - cbn in Hrun. injection Hrun as <-. reflexivity.
  - rewrite (IH _ _ ltac:(discriminate) Hrun). reflexivity.
Qed.

Lemma range_last (n : Z) :
  (1 <= n)%Z -> range n <> [] /\ last (range n) 0%Z = (n - 1)%Z.
Proof.
  intros Hn. unfold range.
  destruct (Z.to_nat n) as [| m] eqn:Hm; [lia |].
  rewrite seq_S, map_app; cbn [map Nat.add].
  split.
  - intros H; apply app_eq_nil in H; destruct H; discriminate.
  - rewrite last_last. lia.
Qed.

Lemma check_integer_positive (n : Z) name :
  (1 <= n)%Z -> check_integer (PyInt n) name = Ok n.
Proof.
  intros Hn; cbn. destruct (0 <? n)%Z eqn:E; [reflexivity |].
  apply Z.ltb_ge in E; lia.
Qed.

(** The run of [ladder_parallel_transport] on valid arguments. *)
Lemma ladder_parallel_transport_run
    (tangent_vec base_point direction : vec) (n_rungs : Z) (scheme : string)
    (alpha : F) (return_geodesics : bool) :
  (1 <= n_rungs)%Z ->
  fltb alpha (of_Q 1) = false ->
  scheme = "pole"%string \/ scheme = "schild"%string ->
  exists single_step st,
    methods self scheme = Ok single_step /\
    rung_loop self single_step base_point direction n_rungs return_geodesics
      (range n_rungs)
      {| current_point := base_point;
         base_shoot :=
           exp self (vdiv tangent_vec (fpow (of_Z n_rungs) alpha)) base_point;
         trajectory := [] |} = Ok st /\
    ladder_parallel_transport self tangent_vec base_point direction
      (PyInt n_rungs) scheme alpha return_geodesics =
    Ok {| transported_tangent_vec :=
            scale_r
              (if ((n_rungs mod 2 =? 1)%Z && String.eqb scheme "pole")%bool
               then scale_r (log self (base_shoot st) (current_point st))
                            (of_Q (-1))
               else log self (base_shoot st) (current_point st))
              (fpow (of_Z n_rungs) alpha);
          end_point := current_point st;
          ladder_trajectory := trajectory st |}.
Proof.
  intros Hn Halpha Hscheme.
  destruct (methods_ok scheme Hscheme) as [single_step [Hm Hstep]].
  destruct (rung_loop_ok single_step base_point direction n_rungs
              return_geodesics Hstep (range n_rungs)
              {| current_point := base_point;
                 base_shoot :=
                   exp self (vdiv tangent_vec (fpow (of_Z n_rungs) alpha))
                       base_point;
                 trajectory := [] |}) as [st Hst].
  exists single_step, st.
  unfold ladder_parallel_transport.
  rewrite (check_integer_positive _ _ Hn); cbn [rbind].
  rewrite Halpha, Hm; cbn [rbind].
  rewrite Hst; cbn [rbind].
  repeat split; eauto.
Qed.

(** C1: with [n_rungs >= 1] and [alpha >= 1] (the test [alpha < 1] of
    the code is false), the ladder starts from the input vector with
    every entry divided by [n_rungs ** alpha], that is scaled by
    [n_rungs ^ (- alpha)].  Every entry of the logarithm read off after
    the rungs is multiplied by [n_rungs ** alpha] before it is returned,
    and by [-1] before that for the pole scheme with an odd [n_rungs];
    for the Schild scheme, and for an even [n_rungs], there is no change
    of sign. *)
Theorem ladder_parallel_transport_scaling
    (tangent_vec base_point direction : vec) (n_rungs : Z) (scheme : string)
    (alpha : F) (return_geodesics : bool) :
  (1 <= n_rungs)%Z ->
  fltb alpha (of_Q 1) = false ->
  scheme = "pole"%string \/ scheme = "schild"%string ->
  exists single_step st r,
    methods self scheme = Ok single_step /\
    rung_loop self single_step base_point direction n_rungs return_geodesics
      (range n_rungs)
      {| current_point := base_point;
         base_shoot :=
           exp self
             (map (fun x => fdiv x (fpow (of_Q (inject_Z n_rungs)) alpha))
                  tangent_vec)
             base_point;
         trajectory := [] |} = Ok st /\
    ladder_parallel_transport self tangent_vec base_point direction
      (PyInt n_rungs) scheme alpha return_geodesics = Ok r /\
    (scheme = "pole"%string -> Z.odd n_rungs = true ->
     transported_tangent_vec r =
       map (fun x => fmul (fmul x (of_Q (-1)))
                          (fpow (of_Q (inject_Z n_rungs)) alpha))
           (log self (base_shoot st) (current_point st))) /\
    (scheme = "schild"%string \/ Z.even n_rungs = true ->
     transported_tangent_vec r =
       map (fun x => fmul x (fpow (of_Q (inject_Z n_rungs)) alpha))
           (log self (base_shoot st) (current_point st))).
Proof.
  intros Hn Halpha Hscheme.
  destruct (ladder_parallel_transport_run tangent_vec base_point direction
              n_rungs scheme alpha return_geodesics Hn Halpha Hscheme)
    as (single_step & st & Hm & Hst & Hr).
  exists single_step, st. eexists.
  split; [exact Hm |]. split; [exact Hst |]. split; [exact Hr |].
  cbn [transported_tangent_vec]. unfold scale_r.
  pose proof (Zmod_odd n_rungs) as Hmod.
  split.
  - intros -> Hodd. rewrite Hodd in Hmod. rewrite Hmod.
    cbn [Z.eqb Pos.eqb String.eqb Ascii.eqb Bool.eqb andb].
    rewrite map_map. reflexivity.
  - intros [-> | Heven].
    + rewrite Bool.andb_false_r. reflexivity.
    + rewrite <- Z.negb_even, Heven in Hmod. cbn [negb] in Hmod.
      rewrite Hmod. reflexivity.
Qed.

(** C2: [ladder_parallel_transport] raises a [ValueError] and returns
    nothing when [n_rungs] is not a positive integer or when
    [alpha < 1], whatever the other arguments and the exponential and
    logarithm of the connection are; [geodesic] raises a [ValueError]
    when neither an end point nor an initial tangent vector is given. *)
Theorem invalid_arguments_raise :
  (forall tangent_vec base_point direction n_rungs scheme alpha return_geodesics,
      positive_integer n_rungs = false \/ fltb alpha (of_Q 1) = true ->
      exists msg,
        ladder_parallel_transport self tangent_vec base_point direction
          n_rungs scheme alpha return_geodesics = Raise (ValueError msg)) /\
  (forall initial_point,
      geodesic self initial_point None None =
        Raise (ValueError
          "Specify an end point or an initial tangent vector to define the geodesic.")).
Proof.
  split; [| reflexivity].
  intros tangent_vec base_point direction n_rungs scheme alpha rg H.
  unfold ladder_parallel_transport.
  destruct n_rungs as [z | x |]; cbn [check_integer positive_integer] in *.
  - destruct (0 <? z)%Z; cbn [rbind].
    + destruct H as [H | H]; [discriminate |]. rewrite H. eauto.
    + eauto.
  - cbn [rbind]. eauto.
  - cbn [rbind]. eauto.
Qed.

(** C10: with [n_rungs >= 1] and either scheme, the ['end_point'] entry is
    the point the last rung moves to,
    [exp(n_rungs / n_rungs * direction, base_point)], which is
    [exp(direction, base_point)] as soon as [n / n] is [1] and [1 * x] is
    [x] in the backend. *)
Theorem ladder_end_point
    (tangent_vec base_point direction : vec) (n_rungs : Z) (scheme : string)
    (alpha : F) (return_geodesics : bool) :
  (forall n, (1 <= n)%Z -> fdiv (of_Z n) (of_Z n) = of_Q 1) ->
  (forall x, fmul (of_Q 1) x = x) ->
  (1 <= n_rungs)%Z ->
  fltb alpha (of_Q 1) = false ->
  scheme = "pole"%string \/ scheme = "schild"%string ->
  exists r,
    ladder_parallel_transport self tangent_vec base_point direction
      (PyInt n_rungs) scheme alpha return_geodesics = Ok r /\
    end_point r =
      exp self (scale_l (fdiv (of_Z n_rungs) (of_Z n_rungs)) direction)
          base_point /\
    end_point r = exp self direction base_point.
Proof.
  intros Hdiv Hone Hn Halpha Hscheme.
  destruct (ladder_parallel_transport_run tangent_vec base_point direction
              n_rungs scheme alpha return_geodesics Hn Halpha Hscheme)
    as (single_step & st & Hm & Hst & Hr).
  eexists. split; [exact Hr |]. cbn [end_point].
  destruct (range_last _ Hn) as [Hne Hlast].
  rewrite (rung_loop_current_point _ _ _ _ _ _ _ _ Hne Hst), Hlast.
  replace (n_rungs - 1 + 1)%Z with n_rungs by lia.
  split; [reflexivity |].
  rewrite (Hdiv _ Hn). f_equal.
  unfold scale_l. rewrite (map_ext _ (fun x => x) Hone). apply map_id.
Qed.

End ConnectionFacts.

(** * The geodesic equation over a backend whose arithmetic is a ring *)

Section GeodesicEquation.
Context {B : Backend}.
Hypothesis Fring :
  ring_theory f0 f1 fadd fmul (fun x y => fadd x (fopp y)) fopp (@eq F).

Add Ring F_ring : Fring.

Lemma fsum_cons (x : F) (l : list F) : fsum (x :: l) = fadd x (fsum l).
Proof. reflexivity. Qed.

Lemma fsum_mul_r {A} (f : A -> F) (c : F) (l : list A) :
  fmul (fsum (map f l)) c = fsum (map (fun i => fmul (f i) c) l).
Proof.
  induction l as [| a l IH]; cbn [map]; rewrite ?fsum_cons.
  - unfold fsum; cbn. ring.
  - rewrite <- IH. ring.
Qed.

Lemma fsum_add {A} (g h : A -> F) (l : list A) :
  fsum (map (fun i => fadd (g i) (h i)) l) =
  fadd (fsum (map g l)) (fsum (map h l)).
Proof.
  induction l as [| a l IH]; cbn [map]; rewrite ?fsum_cons.
  - unfold fsum; cbn. ring.
  - rewrite IH. ring.
Qed.

Lemma fsum_zero {A} (l : list A) : fsum (map (fun _ => f0) l) = f0.
Proof.
  induction l as [| a l IH]; cbn [map]; rewrite ?fsum_cons.
  - reflexivity.
  - rewrite IH. ring.
Qed.

Lemma fsum_exchange {A C} (f : A -> C -> F) (l1 : list A) (l2 : list C) :
  fsum (map (fun j => fsum (map (fun i => f i j) l1)) l2) =
  fsum (map (fun i => fsum (map (fun j => f i j) l2)) l1).
Proof.
  induction l2 as [| c l2 IH]; cbn [map].
  - symmetry. apply (fsum_zero l1).
  - rewrite fsum_cons, IH.
    rewrite <- fsum_add. reflexivity.
Qed.

Lemma combine_nth_seq {A C} (d1 : A) (d2 : C) (l1 : list A) (l2 : list C) :
  List.length l1 = List.length l2 ->
  combine l1 l2 =
  map (fun i => (nth i l1 d1, nth i l2 d2)) (seq 0 (List.length l2)).
Proof.
  revert l2; induction l1 as [| a l1 IH]; intros [| c l2] H;
    cbn in H; try discriminate; [reflexivity |].
  cbn [combine List.length seq map nth]. f_equal.
  rewrite <- seq_shift, map_map. apply IH. lia.
Qed.

Lemma nth_map_seq {A} (f : nat -> A) (d : A) (n j : nat) :
  j < n -> nth j (map f (seq 0 n)) d = f j.
Proof.
  intros Hj.
  rewrite (nth_indep _ d (f 0)) by (rewrite length_map, length_seq; exact Hj).
  rewrite (map_nth f (seq 0 n) 0 j), seq_nth by exact Hj. reflexivity.
Qed.

(** C5: [geodesic_equation] returns the velocity stacked on the
    acceleration, whose component [k] is minus the sum over both lower
    indices [i], [j] of [gamma[k][i][j] * v[i] * v[j]]. *)
Theorem geodesic_equation_contraction
    (self : Connection.t) (position velocity : vec) :
  Forall (fun gamma_k => List.length gamma_k = List.length velocity)
         (Connection.christoffels self position) ->
  Connection.geodesic_equation self (position, velocity) =
  [ velocity;
    map (fun gamma_k =>
           fopp (fsum (map (fun i =>
                   fsum (map (fun j =>
                           fmul (fmul (nth j (nth i gamma_k []) f0)
                                      (nth i velocity f0))
                                (nth j velocity f0))
                         (seq 0 (List.length velocity))))
                 (seq 0 (List.length velocity)))))
        (Connection.christoffels self position) ].
Proof.
  intros Hshape. unfold Connection.geodesic_equation.
  f_equal. f_equal.
  unfold vneg, Connection.einsum_kj_j, Connection.einsum_kij_i.
  rewrite !map_map. apply map_ext_in. intros gamma_k Hin.
  rewrite Forall_forall in Hshape. specialize (Hshape _ Hin).
  f_equal.
  set (d := List.length velocity) in *.
  rewrite (combine_nth_seq f0 f0) by (rewrite length_map, length_seq; reflexivity).
  fold d. rewrite map_map. cbn [fst snd].
  rewrite (combine_nth_seq [] f0 gamma_k velocity Hshape). fold d.
  rewrite fsum_exchange.
  apply f_equal. apply map_ext_in. intros j Hj. apply in_seq in Hj.
  rewrite nth_map_seq by lia.
  rewrite map_map. cbn [fst snd].
  rewrite fsum_mul_r. reflexivity.
Qed.

End GeodesicEquation.

(** * Properties of riemannian_metric.py *)

Section MetricFacts.
Context {B : Backend}.
Variable self : RiemannianMetric.t.

Import RiemannianMetric.

Lemma length_einsum_j_njk a ms : List.length (einsum_j_njk a ms) = List.length ms.
Proof. apply length_map. Qed.

Lemma length_einsum_nj_jk a m : List.length (einsum_nj_jk a m) = List.length a.
Proof. apply length_map. Qed.

Lemma length_einsum_nj_njk a ms :
  List.length (einsum_nj_njk a ms) = Nat.min (List.length a) (List.length ms).
Proof. unfold einsum_nj_njk. rewrite length_map. apply length_combine. Qed.

Lemma length_einsum_k_nk aux b : List.length (einsum_k_nk aux b) = List.length b.
Proof. apply length_map. Qed.

Lemma length_einsum_nk_k aux b : List.length (einsum_nk_k aux b) = List.length aux.
Proof. apply length_map. Qed.

Lemma length_einsum_nk_nk aux b :
  List.length (einsum_nk_nk aux b) = Nat.min (List.length aux) (List.length b).
Proof. unfold einsum_nk_nk. rewrite length_map. apply length_combine. Qed.

Lemma length_to_column v : List.length (to_column v) = List.length v.
Proof. apply length_map. Qed.

Lemma first_contraction_spec (a : batch) (ms : list mat) :
  if broadcastable (List.length a) (List.length ms)
  then exists aux, first_contraction a ms = Ok aux /\
         List.length aux = contracted_size (List.length a) (List.length ms)
  else first_contraction a ms = Raise (ValueError "Shape mismatch for einsum.").
Proof.
  unfold first_contraction, broadcastable, contracted_size.
  destruct (Nat.eqb_spec (List.length a) (List.length ms)) as [E | E]; cbn.
  - eexists; split; [reflexivity |].
    rewrite length_einsum_nj_njk. lia.
  - destruct (Nat.eqb_spec (List.length a) 1); cbn.
    + eexists; split; [reflexivity | apply length_einsum_j_njk].
    + destruct (Nat.eqb_spec (List.length ms) 1); cbn.
      * eexists; split; [reflexivity | apply length_einsum_nj_jk].
      * reflexivity.
Qed.

Lemma map_nth_seq {A C} (f : A -> C) (d : A) (v : list A) :
  map (fun k => f (nth k v d)) (seq 0 (List.length v)) = map f v.
Proof.
  induction v as [| x v IH]; [reflexivity |].
  cbn [List.length seq map nth]. f_equal.
  rewrite <- seq_shift, map_map. exact IH.
Qed.

Lemma broadcast_get_nth {A} (l : list A) (d : A) (n : nat) :
  n < List.length l -> broadcast_get l d n = nth n l d.
Proof.
  intros Hn. unfold broadcast_get.
  destruct (Nat.eqb_spec (List.length l) 1) as [E | E]; [| reflexivity].
  destruct l as [| x [| y l]]; cbn in E; try discriminate.
  destruct n as [| n]; [reflexivity | cbn in Hn; lia].
Qed.

Lemma broadcast_get_single {A} (l : list A) (d : A) (n : nat) :
  List.length l = 1 -> broadcast_get l d n = hd d l.
Proof. intros E. unfold broadcast_get. rewrite E. reflexivity. Qed.

Lemma broadcast_get_In {A} (l : list A) (d : A) (n : nat) :
  List.length l = 1 \/ n < List.length l -> In (broadcast_get l d n) l.
Proof.
  intros [E | Hn].
  - rewrite (broadcast_get_single l d n E).
    destruct l as [| x l]; [discriminate | left; reflexivity].
  - rewrite (broadcast_get_nth l d n Hn). apply nth_In. exact Hn.
Qed.

(** The three ways two batches are contracted, index by index. *)
Lemma contraction_paired {A C D} (f : A -> C -> D) (dA : A) (dC : C)
    (a : list A) (c : list C) :
  List.length a = List.length c ->
  map (fun p => f (fst p) (snd p)) (combine a c) =
  map (fun n => f (broadcast_get a dA n) (broadcast_get c dC n))
      (seq 0 (List.length a)).
Proof.
  intros E. rewrite (combine_nth_seq dA dC a c E), map_map, <- E.
  cbn [fst snd]. apply map_ext_in. intros n Hn. apply in_seq in Hn.
  rewrite !broadcast_get_nth by lia. reflexivity.
Qed.

Lemma contraction_left_single {A C D} (f : A -> C -> D) (dA : A) (dC : C)
    (a : list A) (c : list C) :
  List.length a = 1 ->
  map (fun y => f (hd dA a) y) c =
  map (fun n => f (broadcast_get a dA n) (broadcast_get c dC n))
      (seq 0 (List.length c)).
Proof.
  intros E. rewrite <- (map_nth_seq (fun y => f (hd dA a) y) dC c).
  apply map_ext_in. intros n Hn. apply in_seq in Hn.
  rewrite (broadcast_get_single a dA n E), broadcast_get_nth by lia.
  reflexivity.
Qed.

Lemma contraction_right_single {A C D} (f : A -> C -> D) (dA : A) (dC : C)
    (a : list A) (c : list C) :
  List.length c = 1 ->
  map (fun x => f x (hd dC c)) a =
  map (fun n => f (broadcast_get a dA n) (broadcast_get c dC n))
      (seq 0 (List.length a)).
Proof.
  intros E. rewrite <- (map_nth_seq (fun x => f x (hd dC c)) dA a).
  apply map_ext_in. intros n Hn. apply in_seq in Hn.
  rewrite (broadcast_get_single c dC n E), broadcast_get_nth by lia.
  reflexivity.
Qed.

Lemma contracted_size_cases (n m : nat) :
  (n = m /\ contracted_size n m = n) \/
  (n <> m /\ n = 1 /\ contracted_size n m = m) \/
  (n <> m /\ n <> 1 /\ contracted_size n m = n).
Proof.
  unfold contracted_size.
  destruct (Nat.eqb_spec n m); [lia |].
  destruct (Nat.eqb_spec n 1); lia.
Qed.

Lemma first_contraction_value (a : batch) (ms : list mat) (aux : batch) :
  first_contraction a ms = Ok aux ->
  aux = map (fun n => vecmat (broadcast_get a [] n) (broadcast_get ms [] n))
            (seq 0 (contracted_size (List.length a) (List.length ms))).
Proof.
  unfold first_contraction, contracted_size.
  destruct (Nat.eqb_spec (List.length a) (List.length ms)) as [E | E];
    cbn [negb].
  - intros H; injection H as <-. unfold einsum_nj_njk.
    apply (contraction_paired vecmat [] [] a ms E).
  - destruct (Nat.eqb_spec (List.length a) 1) as [Ea | Ea].
    + intros H; injection H as <-. unfold einsum_j_njk, squeeze0.
      apply (contraction_left_single vecmat [] [] a ms Ea).
    + destruct (Nat.eqb_spec (List.length ms) 1) as [Em | Em];
        [| discriminate].
      intros H; injection H as <-. unfold einsum_nj_jk, squeeze0.
      apply (contraction_right_single vecmat [] [] a ms Em).
Qed.

(** The two contractions in a row are the quadratic form. *)
Lemma dot_vecmat_quadratic_form (d : nat) (a b : vec) (G : mat) :
  List.length a = d ->
  List.length b = d ->
  List.length G = d ->
  List.length (hd [] G) = d ->
  dot (vecmat a G) b = quadratic_form d a G b.
Proof.
  intros Ha Hb HG Hd. unfold dot, vecmat, quadratic_form. rewrite Hd.
  rewrite (combine_nth_seq f0 f0)
    by (rewrite length_map, length_seq; symmetry; exact Hb).
  rewrite Hb, map_map. cbn [fst snd].
  change (fold_right fadd (of_Q 0)) with fsum.
  apply f_equal. apply map_ext_in. intros k Hk. apply in_seq in Hk.
  rewrite nth_map_seq by lia.
  rewrite (combine_nth_seq (A:=F) (C:=vec) f0 [] a G)
    by (rewrite Ha, HG; reflexivity).
  rewrite HG, map_map. reflexivity.
Qed.

(** C4, as the code has it: [inner_product] contracts the two batches of
    vectors with the inner-product matrices at [base_point].  It succeeds
    exactly when the batch sizes of the first operand and of the matrices
    are equal or one of them is one, and the batch size of that
    contraction and the batch size of the second operand are equal or one
    of them is one; otherwise it raises the shape-mismatch [ValueError].
    When it succeeds although the three batch sizes are not all equal,
    one of the three is one.  When it succeeds, on vectors of dimension
    [d] and square matrices of that dimension, the result is the column
    whose entry [n] is [sum_k (sum_j u_j m_jk) v_k] for the vectors [u],
    [v] and the matrix [m] at index [n] of their batches, the only one
    of a batch of size one being used at every index. *)
Theorem inner_product_broadcasting (tangent_vec_a tangent_vec_b base_point : arr) :
  let a := to_ndarray2 tangent_vec_a in
  let b := to_ndarray2 tangent_vec_b in
  let mats := to_ndarray3 (inner_product_matrix self base_point) in
  let n_a := List.length a in
  let n_b := List.length b in
  let n_mats := List.length mats in
  let n_auxs := contracted_size n_a n_mats in
  (if broadcastable n_a n_mats && broadcastable n_b n_auxs
   then exists r,
       inner_product self tangent_vec_a tangent_vec_b base_point = Ok r /\
       List.length r = contracted_size n_auxs n_b
   else inner_product self tangent_vec_a tangent_vec_b base_point =
        Raise (ValueError "Shape mismatch for einsum.")) /\
  ((exists r, inner_product self tangent_vec_a tangent_vec_b base_point = Ok r) ->
   ~ (n_a = n_mats /\ n_b = n_mats) ->
   n_a = 1 \/ n_b = 1 \/ n_mats = 1) /\
  (forall d r,
      Forall (fun u => List.length u = d) a ->
      Forall (fun v => List.length v = d) b ->
      Forall (fun m => List.length m = d /\ List.length (hd [] m) = d) mats ->
      inner_product self tangent_vec_a tangent_vec_b base_point = Ok r ->
      r = map (fun n =>
                 [quadratic_form d (broadcast_get a [] n)
                    (broadcast_get mats [] n) (broadcast_get b [] n)])
              (seq 0 (contracted_size n_auxs n_b))).
Proof.
  intros a b mats n_a n_b n_mats n_auxs.
  assert (Hmain :
    if broadcastable n_a n_mats && broadcastable n_b n_auxs
    then exists r,
        inner_product self tangent_vec_a tangent_vec_b base_point = Ok r /\
        List.length r = contracted_size n_auxs n_b
    else inner_product self tangent_vec_a tangent_vec_b base_point =
         Raise (ValueError "Shape mismatch for einsum.")).
  { unfold inner_product.
    fold (first_contraction (to_ndarray2 tangent_vec_a)
            (to_ndarray3 (inner_product_matrix self base_point))).
    pose proof (first_contraction_spec (to_ndarray2 tangent_vec_a)
                  (to_ndarray3 (inner_product_matrix self base_point))) as H1.
    fold a mats in H1 |- *. fold n_a n_mats in H1.
    destruct (broadcastable n_a n_mats); cbn [andb].
    - destruct H1 as [aux [-> Haux]]. cbn [rbind]. fold b n_b.
      fold n_auxs in Haux. rewrite Haux.
      unfold broadcastable, contracted_size.
      destruct (Nat.eqb_spec n_b n_auxs) as [E | E]; cbn.
      + rewrite (proj2 (Nat.eqb_eq n_auxs n_b)) by lia.
        eexists; split; [reflexivity |].
        rewrite length_to_column, length_einsum_nk_nk. lia.
      + destruct (Nat.eqb_spec n_auxs n_b); [lia |].
        destruct (Nat.eqb_spec n_auxs 1); cbn.
        * rewrite Bool.orb_true_r. eexists; split; [reflexivity |].
          rewrite length_to_column. apply length_einsum_k_nk.
        * destruct (Nat.eqb_spec n_b 1); cbn.
          -- eexists; split; [reflexivity |].
             rewrite length_to_column, length_einsum_nk_k. exact Haux.
          -- reflexivity.
    - rewrite H1. reflexivity. }
  split; [exact Hmain |].
  split.
  { intros [r Hr] Hne.
    destruct (broadcastable n_a n_mats && broadcastable n_b n_auxs) eqn:Hb.
    - apply andb_prop in Hb. destruct Hb as [Hb1 Hb2].
      unfold broadcastable in Hb1, Hb2.
      rewrite !Bool.orb_true_iff, !Nat.eqb_eq in Hb1, Hb2.
      destruct Hb1 as [[Ha | Ha] | Ha]; [| lia | lia].
      unfold n_auxs, contracted_size in Hb2.
      rewrite (proj2 (Nat.eqb_eq n_a n_mats) Ha) in Hb2. lia.
    - rewrite Hr in Hmain. discriminate. }
  intros d r Hshape_a Hshape_b Hshape_m Hr.
  rewrite Forall_forall in Hshape_a, Hshape_b, Hshape_m.
  unfold inner_product in Hr.
  fold (first_contraction (to_ndarray2 tangent_vec_a)
          (to_ndarray3 (inner_product_matrix self base_point))) in Hr.
  fold a mats b in Hr.
  pose proof (first_contraction_spec a mats) as Hspec.
  fold n_a n_mats in Hspec.
  destruct (first_contraction a mats) as [aux | e] eqn:Haux;
    cbn [rbind] in Hr; [| discriminate].
  destruct (broadcastable n_a n_mats) eqn:Hb1; [| discriminate].
  destruct Hspec as (aux' & Heq & Hlen). injection Heq as <-.
  fold n_auxs in Hlen.
  pose proof (first_contraction_value a mats aux Haux) as Hval.
  fold n_a n_mats n_auxs in Hval.
  assert (Hinner : exists inner,
             r = to_column inner /\
             inner = map (fun n => dot (broadcast_get aux [] n)
                                       (broadcast_get b [] n))
                         (seq 0 (contracted_size n_auxs n_b)) /\
             broadcastable n_b n_auxs = true).
  { fold n_b in Hr. rewrite Hlen in Hr.
    unfold contracted_size at 1, broadcastable.
    destruct (Nat.eqb_spec n_b n_auxs) as [E | E]; cbn [negb] in Hr.
    - cbn [rbind] in Hr. injection Hr as <-.
      eexists. split; [reflexivity |].
      rewrite (proj2 (Nat.eqb_eq n_auxs n_b)) by lia.
      split; [| reflexivity].
      unfold einsum_nk_nk. rewrite <- Hlen.
      apply (contraction_paired dot [] [] aux b). unfold n_b in E. lia.
    - destruct (Nat.eqb_spec n_auxs n_b); [lia |].
      destruct (Nat.eqb_spec n_auxs 1) as [E1 | E1].
      + cbn [rbind] in Hr. injection Hr as <-.
        eexists. split; [reflexivity |].
        split; [| cbn; apply Bool.orb_true_r].
        unfold einsum_k_nk, squeeze0.
        apply (contraction_left_single dot [] [] aux b). lia.
      + destruct (Nat.eqb_spec n_b 1) as [E2 | E2];
          cbn [rbind] in Hr; [| discriminate].
        injection Hr as <-.
        eexists. split; [reflexivity |]. split; [| reflexivity].
        unfold einsum_nk_k, squeeze0. rewrite <- Hlen.
        apply (contraction_right_single dot [] [] aux b). exact E2. }
  destruct Hinner as (inner & -> & -> & Hb2).
  unfold to_column. rewrite map_map.
  apply map_ext_in. intros n Hn. apply in_seq in Hn.
  unfold broadcastable in Hb1, Hb2.
  rewrite !Bool.orb_true_iff, !Nat.eqb_eq in Hb1, Hb2.
  assert (Hsizes :
    (n_a = 1 \/ n < n_a) /\ (n_mats = 1 \/ n < n_mats) /\
    (n_b = 1 \/ n < n_b) /\
    (n_auxs = 1 -> n_a = 1 /\ n_mats = 1) /\
    (n_auxs <> 1 -> n < n_auxs)).
  { pose proof (contracted_size_cases n_a n_mats) as H1.
    pose proof (contracted_size_cases n_auxs n_b) as H2.
    fold n_auxs in H1. cbn [Nat.add] in Hn. lia. }
  destruct Hsizes as (Hna & Hnm & Hnb & Hone & Hmany).
  assert (Hrow : broadcast_get aux [] n =
                 vecmat (broadcast_get a [] n) (broadcast_get mats [] n)).
  { destruct (Nat.eq_dec n_auxs 1) as [E | E].
    - destruct (Hone E) as [Ea Em].
      rewrite (broadcast_get_single aux [] n) by lia.
      rewrite Hval, E. cbn [seq map hd].
      rewrite !(broadcast_get_single a [] _ Ea).
      rewrite !(broadcast_get_single mats [] _ Em). reflexivity.
    - rewrite broadcast_get_nth by (rewrite Hlen; auto).
      rewrite Hval.
      exact (nth_map_seq
               (fun n => vecmat (broadcast_get a [] n) (broadcast_get mats [] n))
               [] n_auxs n (Hmany E)). }
  rewrite Hrow. f_equal.
  pose proof (Hshape_m _ (broadcast_get_In mats [] n Hnm)) as [Hm1 Hm2].
  apply dot_vecmat_quadratic_form.
  - apply Hshape_a. apply broadcast_get_In. exact Hna.
  - apply Hshape_b. apply broadcast_get_In. exact Hnb.
  - exact Hm1.
  - exact Hm2.
Qed.

Lemma squared_dist_run (point_a point_b : arr) (tr : list event) :
  squared_dist self point_a point_b tr =
    (squared_norm self (A2 (log self point_b point_a)) point_a,
     tr ++ [EvSquaredDist point_a point_b; EvLog point_b point_a]).
Proof.
  unfold squared_dist, call_log, bind, tell, ret, lift.
  rewrite <- app_assoc.
  destruct (squared_norm self (A2 (log self point_b point_a)) point_a);
    reflexivity.
Qed.

Lemma dist_run (point_a point_b : arr) (tr : list event) :
  dist self point_a point_b tr =
    (rbind (squared_norm self (A2 (log self point_b point_a)) point_a)
           (fun sq_dist => Ok (sqrt2 sq_dist)),
     tr ++ [EvDist point_a point_b; EvSquaredDist point_a point_b;
            EvLog point_b point_a]).
Proof.
  unfold dist, bind, tell, ret. rewrite squared_dist_run.
  rewrite <- app_assoc.
  destruct (squared_norm self (A2 (log self point_b point_a)) point_a);
    reflexivity.
Qed.

(** C6: [squared_dist(a, b)] is [squared_norm(log(b, a), a)], that is
    the inner product at [a] of [log(point=b, base_point=a)] with
    itself, after one call of [log] with [b] as the point and [a] as the
    base point.  [dist(a, b)] makes the one call of [squared_dist(a, b)]
    and returns the square root of each entry of what it returns; it
    fails where [squared_dist] fails. *)
Theorem squared_dist_and_dist (point_a point_b : arr) (tr : list event) :
  squared_dist self point_a point_b tr =
    (inner_product self (A2 (log self point_b point_a))
       (A2 (log self point_b point_a)) point_a,
     tr ++ [EvSquaredDist point_a point_b; EvLog point_b point_a]) /\
  (forall sq_dist,
      fst (squared_dist self point_a point_b tr) = Ok sq_dist ->
      fst (dist self point_a point_b tr) =
        Ok (map (map fsqrt) sq_dist)) /\
  (forall e,
      fst (squared_dist self point_a point_b tr) = Raise e ->
      fst (dist self point_a point_b tr) = Raise e) /\
  snd (dist self point_a point_b tr) =
    tr ++ [EvDist point_a point_b; EvSquaredDist point_a point_b;
           EvLog point_b point_a].
Proof.
  split; [apply squared_dist_run |].
  rewrite dist_run, squared_dist_run. cbn [fst snd].
  repeat split.
  - intros sq_dist ->. reflexivity.
  - intros e ->. reflexivity.
Qed.

(** On a batch of exactly one point, with any weights, [mean] returns
    that point as a batch of one and calls nothing;
    [adaptive_gradientdescent_mean] returns as a batch of one, without
    entering its descent loop and without calling anything, the single
    point when [init_points] is empty and the first of [init_points]
    otherwise. *)
Lemma mean_of_single_point :
  (forall p weights n_max_iterations epsilon tr,
      mean self (A2 [p]) weights n_max_iterations epsilon tr = (Ok [p], tr) /\
      mean self (A1 p) weights n_max_iterations epsilon tr = (Ok [p], tr)) /\
  (forall p weights n_max_iterations epsilon tr,
      adaptive_gradientdescent_mean self [p] weights n_max_iterations epsilon
        [] tr = (Ok [p], tr)) /\
  (forall p weights n_max_iterations epsilon q init_points tr,
      adaptive_gradientdescent_mean self [p] weights n_max_iterations epsilon
        (q :: init_points) tr = (Ok [q], tr)).
Proof. repeat split. Qed.

Lemma descent_body_run (points weights : batch) (sum_weights : F)
    (vars : descent_vars) (tr : list event) :
  let shooting_vector := [scale_l (tau vars) (current_tangent_mean vars)] in
  let next_mean := exp self (A2 shooting_vector) (current_mean vars) in
  let next_tangent_mean :=
    vdiv (einsum_nk_nj weights (log self (A2 points) (A2 next_mean)))
         sum_weights in
  let norm_next_tangent_mean := linalg_norm next_tangent_mean in
  descent_body self points weights sum_weights vars tr =
    (Ok (if fltb norm_next_tangent_mean (norm_current_tangent_mean vars)
         then {| current_mean := A2 next_mean;
                 current_tangent_mean := next_tangent_mean;
                 norm_current_tangent_mean := norm_next_tangent_mean;
                 tau := py_max (of_Q 1)
                          (fmul (of_Q (10511111 # 10000000)) (tau vars));
                 iter := iter vars + 1 |}
         else {| current_mean := current_mean vars;
                 current_tangent_mean := current_tangent_mean vars;
                 norm_current_tangent_mean := norm_current_tangent_mean vars;
                 tau := fmul (tau vars) (of_Q (8 # 10));
                 iter := iter vars + 1 |}),
     tr ++ [EvExp (A2 shooting_vector) (current_mean vars);
            EvLog (A2 points) (A2 next_mean)]).
Proof.
  cbv zeta. unfold descent_body, call_exp, call_log, bind, tell, ret.
  cbn [to_ndarray2]. rewrite <- app_assoc. cbn [app].
  destruct (fltb _ _); reflexivity.
Qed.


Lemma combine_map_self {A C} (f : A -> C) (l : list A) :
  combine (map f l) l = map (fun x => (f x, x)) l.
Proof. induction l as [| a l IH]; cbn; [reflexivity | now rewrite IH]. Qed.

Lemma concat_singletons {A C} (f : A -> C) (l : list A) :
  List.concat (map (fun x => [f x]) l) = map f l.
Proof. induction l as [| a l IH]; cbn; [reflexivity | now rewrite IH]. Qed.

(** The squared norm of a batch of vectors at a single base point. *)
Lemma squared_norm_single_matrix (logs : batch) (p : vec) :
  List.length (to_ndarray3 (inner_product_matrix self (A1 p))) = 1 ->
  squared_norm self (A2 logs) (A1 p) =
    Ok (map (fun l =>
               [dot (vecmat l (squeeze0 (to_ndarray3
                                (inner_product_matrix self (A1 p))))) l])
            logs).
Proof.
  intros Hmat. unfold squared_norm, inner_product. cbn [to_ndarray2].
  destruct (to_ndarray3 (inner_product_matrix self (A1 p))) as [| G [| G' ms]];
    cbn in Hmat; try discriminate.
  cbn [List.length squeeze0 hd].
  destruct (Nat.eqb_spec (List.length logs) 1) as [E | E]; cbn [negb].
  - destruct logs as [| l [| l' logs]]; cbn in E; try discriminate.
    reflexivity.
  - cbn [Nat.eqb rbind]. rewrite length_einsum_nj_jk, Nat.eqb_refl.
    cbn [negb rbind]. unfold einsum_nk_nk, einsum_nj_jk, to_column.
    rewrite combine_map_self, !map_map. reflexivity.
Qed.

Lemma amax_column {A} (d : A -> F) (q : A) (qs : list A) :
  amax (map (fun q => [d q]) (q :: qs)) = Ok (fold_left fmaximum (map d qs) (d q)).
Proof. unfold amax. rewrite concat_singletons. reflexivity. Qed.

Lemma skipn_middle {A} (pre : list A) (p : A) (rest : list A) :
  skipn (List.length pre + 1) (pre ++ p :: rest) = rest.
Proof.
  induction pre as [| a pre IH]; cbn; [reflexivity | exact IH].
Qed.

Lemma length_later_pairs (points : batch) :
  2 * List.length (later_pairs points) =
  List.length points * (List.length points - 1).
Proof.
  induction points as [| p rest IH]; cbn [later_pairs List.length];
    [reflexivity |].
  rewrite length_app, length_map.
  destruct rest as [| q rest]; [reflexivity |].
  cbn [List.length] in *. nia.
Qed.

Section Diameter.
Hypothesis maximum_assoc : forall x y z : F,
  fmaximum x (fmaximum y z) = fmaximum (fmaximum x y) z.
Hypothesis sqrt_nonneg : forall x : F, fmaximum (of_Q 0) (fsqrt x) = fsqrt x.
Hypothesis log_vectorized : forall p qs,
  log self (A2 qs) (A1 p) =
  List.concat (map (fun q => log self (A1 q) (A1 p)) qs).
Hypothesis log_single : forall p q,
  List.length (log self (A1 q) (A1 p)) = 1.
Hypothesis matrix_single : forall p,
  List.length (to_ndarray3 (inner_product_matrix self (A1 p))) = 1.

Lemma dist1_sqrt (p q : vec) :
  dist1 self (p, q) =
  fsqrt (dot (vecmat (hd [] (log self (A1 q) (A1 p)))
                     (squeeze0 (to_ndarray3 (inner_product_matrix self (A1 p)))))
             (hd [] (log self (A1 q) (A1 p)))).
Proof.
  unfold dist1. rewrite dist_run. cbn [fst snd].
  rewrite squared_norm_single_matrix by apply matrix_single.
  pose proof (log_single p q) as Hlen.
  destruct (log self (A1 q) (A1 p)) as [| l [| l' ls]]; cbn in Hlen;
    try discriminate.
  reflexivity.
Qed.

Lemma dist_batch (p : vec) (qs : batch) (tr : list event) :
  dist self (A1 p) (A2 qs) tr =
    (Ok (map (fun q => [dist1 self (p, q)]) qs),
     tr ++ [EvDist (A1 p) (A2 qs); EvSquaredDist (A1 p) (A2 qs);
            EvLog (A2 qs) (A1 p)]).
Proof.
  rewrite dist_run.
  rewrite squared_norm_single_matrix by apply matrix_single.
  cbn [rbind]. f_equal. f_equal.
  rewrite log_vectorized. unfold sqrt2.
  induction qs as [| q qs IH]; [reflexivity |].
  cbn [map List.concat]. rewrite dist1_sqrt.
  pose proof (log_single p q) as Hlen.
  destruct (log self (A1 q) (A1 p)) as [| l [| l' ls]]; cbn in Hlen;
    try discriminate.
  cbn [app map hd]. f_equal. exact IH.
Qed.

Lemma fold_maximum_acc (acc x : F) (xs : list F) :
  fmaximum acc (fold_left fmaximum xs x) = fold_left fmaximum (x :: xs) acc.
Proof.
  revert x; induction xs as [| y ys IH]; intros x; [reflexivity |].
  cbn [fold_left] in *. rewrite IH, maximum_assoc. reflexivity.
Qed.

Lemma diameter_loop_run (suffix pre : batch) (acc : F) (tr : list event) :
  diameter_loop self (pre ++ suffix)
    (seq (List.length pre) (List.length suffix - 1)) acc tr =
    (Ok (fold_left fmaximum (map (dist1 self) (later_pairs suffix)) acc),
     tr ++ diameter_events suffix).
Proof.
  revert pre acc tr; induction suffix as [| p rest IH]; intros pre acc tr.
  - cbn. unfold ret. now rewrite app_nil_r.
  - destruct rest as [| q rest].
    + cbn. unfold ret. now rewrite app_nil_r.
    + replace (List.length (p :: q :: rest) - 1) with (S (List.length rest))
        by (cbn; lia).
      cbn [seq diameter_loop]. unfold bind.
      rewrite nth_middle, skipn_middle, dist_batch.
      unfold lift. rewrite amax_column. rewrite fold_maximum_acc.
      specialize (IH (pre ++ [p]) (fold_left fmaximum
                        (map (fun q0 => dist1 self (p, q0)) (q :: rest)) acc)
                     (tr ++ [EvDist (A1 p) (A2 (q :: rest));
                             EvSquaredDist (A1 p) (A2 (q :: rest));
                             EvLog (A2 (q :: rest)) (A1 p)])).
      rewrite <- app_assoc in IH. cbn [app] in IH.
      rewrite length_app in IH. cbn [List.length] in IH.
      rewrite Nat.add_1_r in IH.
      replace (S (List.length rest) - 1) with (List.length rest) in IH by lia.
      cbn [map] in IH |- *. rewrite IH.
      change (later_pairs (p :: q :: rest))
        with (map (fun q0 => (p, q0)) (q :: rest) ++ later_pairs (q :: rest)).
      change (diameter_events (p :: q :: rest))
        with ([EvDist (A1 p) (A2 (q :: rest));
               EvSquaredDist (A1 p) (A2 (q :: rest));
               EvLog (A2 (q :: rest)) (A1 p)] ++ diameter_events (q :: rest)).
      rewrite map_app, fold_left_app, map_map, app_assoc.
      reflexivity.
Qed.

(** C9: under a metric whose [log] works pointwise on a batch, a
    backend whose [maximum] is associative and whose square roots are not
    below zero, [diameter] returns the maximum of [dist(points[i],
    points[j])] over the pairs [i < j], and [0.0] when the batch has
    fewer than two points.  It calls [dist] once for each point but the
    last, against the points after it only, so that each of the
    [n (n - 1) / 2] pairs is compared once. *)
Theorem diameter_maximum_of_pairs (points : batch) (tr : list event) :
  diameter self points tr =
    (Ok (match map (dist1 self) (later_pairs points) with
         | [] => of_Q 0
         | d :: ds => fold_left fmaximum ds d
         end),
     tr ++ diameter_events points) /\
  2 * List.length (later_pairs points) =
    List.length points * (List.length points - 1) /\
  (List.length points < 2 -> diameter self points tr = (Ok (of_Q 0), tr)).
Proof.
  assert (Hrun : diameter self points tr =
    (Ok (match map (dist1 self) (later_pairs points) with
         | [] => of_Q 0
         | d :: ds => fold_left fmaximum ds d
         end),
     tr ++ diameter_events points)).
  { unfold diameter.
    pose proof (diameter_loop_run points [] (of_Q 0) tr) as Hloop.
    cbn [app List.length] in Hloop. rewrite Hloop.
    destruct (later_pairs points) as [| [p q] pairs]; [reflexivity |].
    cbn [map fold_left]. rewrite dist1_sqrt, sqrt_nonneg. reflexivity. }
  split; [exact Hrun |]. split; [apply length_later_pairs |].
  intros Hlen. rewrite Hrun.
  destruct points as [| p [| q rest]]; cbn in Hlen; try lia;
    cbn; now rewrite app_nil_r.
Qed.

End Diameter.

End MetricFacts.

(** * The consistency check of [geodesic] *)

Section GeodesicFacts.
Context {B : Backend}.
Variable connection : Connection.t.
Variable metric : RiemannianMetric.t.

(** What the two variants of [geodesic] do when both an end point and
    an initial tangent vector are given: each first computes the shooting
    vector [log(end_point, initial_point)].  When [allclose] of the
    shooting vector and the given vector fails, [Connection.geodesic]
    raises the [RuntimeError] whose message says "too far", and
    [RiemannianMetric.geodesic] fails its assertion; otherwise the path
    returned shoots along the vector computed by [log], at the times
    given, which [RiemannianMetric.geodesic] casts to [float32]. *)
Lemma geodesic_consistency_check :
  (forall initial_point end_point initial_tangent_vec,
      Connection.geodesic connection initial_point (Some end_point)
        (Some initial_tangent_vec) =
      if allclose (Connection.log connection end_point initial_point)
                  initial_tangent_vec
      then Ok (fun t =>
                 map (fun t_i =>
                        Connection.exp connection
                          (scale_l t_i
                             (Connection.log connection end_point initial_point))
                          initial_point) t)
      else Raise (RuntimeError
        "The shooting tangent vector is too far from the input initial tangent vector.")) /\
  (forall initial_point end_point initial_tangent_vec tr,
      let initial_point2 := RiemannianMetric.to_ndarray2 initial_point in
      let end_point2 := RiemannianMetric.to_ndarray2 end_point in
      let shooting_tangent_vec :=
        RiemannianMetric.log metric (RiemannianMetric.A2 end_point2)
          (RiemannianMetric.A2 initial_point2) in
      let called :=
        tr ++ [RiemannianMetric.EvLog (RiemannianMetric.A2 end_point2)
                 (RiemannianMetric.A2 initial_point2)] in
      match
        RiemannianMetric.allclose_arr shooting_tangent_vec initial_tangent_vec
      with
      | Ok true =>
          exists path,
            RiemannianMetric.geodesic metric initial_point (Some end_point)
              (Some initial_tangent_vec) tr = (Ok path, called) /\
            forall t tr',
              let tangent_vecs :=
                RiemannianMetric.einsum_il_nk
                  (RiemannianMetric.to_column (map cast_float32 t))
                  shooting_tangent_vec in
              path t tr' =
              (Ok (RiemannianMetric.exp metric
                     (RiemannianMetric.A2 tangent_vecs)
                     (RiemannianMetric.A2 initial_point2)),
               tr' ++ [RiemannianMetric.EvExp
                         (RiemannianMetric.A2 tangent_vecs)
                         (RiemannianMetric.A2 initial_point2)])
      | Ok false =>
          RiemannianMetric.geodesic metric initial_point (Some end_point)
            (Some initial_tangent_vec) tr = (Raise AssertionError, called)
      | Raise e =>
          RiemannianMetric.geodesic metric initial_point (Some end_point)
            (Some initial_tangent_vec) tr = (Raise e, called)
      end).
Proof.
  split.
  - intros initial_point end_point initial_tangent_vec.
    unfold Connection.geodesic.
    destruct (allclose _ initial_tangent_vec); reflexivity.
  - intros initial_point end_point initial_tangent_vec tr. cbv zeta.
    unfold RiemannianMetric.geodesic, RiemannianMetric.call_log,
      RiemannianMetric.bind, RiemannianMetric.tell, RiemannianMetric.ret,
      RiemannianMetric.raise, RiemannianMetric.lift.
    destruct (RiemannianMetric.allclose_arr _ initial_tangent_vec)
      as [[|] | e].
    + eexists; split; [reflexivity |].
      intros t tr'. reflexivity.
    + reflexivity.
    + reflexivity.
Qed.

End GeodesicFacts.

(** * The rational backend: laws, runs and counterexamples *)

Section RationalFacts.
Import Rational.

Lemma Qc_ltb_true (x y : Qc) : Qc_ltb x y = true <-> Qclt x y.
Proof.
  unfold Qc_ltb. rewrite Qclt_alt.
  destruct (Qccompare x y); split; intros H; try reflexivity; discriminate.
Qed.

Lemma Qc_ltb_false (x y : Qc) : Qc_ltb x y = false <-> Qcle y x.
Proof.
  split; intros H.
  - apply Qcnot_lt_le. intros Hlt. apply Qc_ltb_true in Hlt. congruence.
  - destruct (Qc_ltb x y) eqn:E; [| reflexivity].
    apply Qc_ltb_true in E. exfalso. exact (Qcle_not_lt _ _ H E).
Qed.

Lemma Qc_maximum_assoc (x y z : @F QcBackend) :
  fmaximum x (fmaximum y z) = fmaximum (fmaximum x y) z.
Proof.
  cbn.
  destruct (Qc_ltb y z) eqn:Hyz, (Qc_ltb x y) eqn:Hxy;
    rewrite ?Hyz; try reflexivity.
  - apply Qc_ltb_true in Hyz, Hxy.
    rewrite (proj2 (Qc_ltb_true x z) (Qclt_trans _ _ _ Hxy Hyz)). reflexivity.
  - apply Qc_ltb_false in Hyz, Hxy.
    rewrite (proj2 (Qc_ltb_false x z) (Qcle_trans _ _ _ Hyz Hxy)). reflexivity.
Qed.

Lemma Qc_sqrt_nonneg (x : @F QcBackend) :
  fmaximum (of_Q 0) (fsqrt x) = fsqrt x.
Proof.
  cbn. destruct (Qc_ltb (Q2Qc 0) (Qc_sqrt x)) eqn:E; [reflexivity |].
  apply Qc_ltb_false in E. apply Qcle_antisym; [| exact E].
  unfold Qcle, Qc_sqrt, Q2Qc; cbn [this].
  rewrite !Qred_correct. unfold Qle; cbn.
  rewrite Z.mul_1_r. apply Z.sqrt_nonneg.
Qed.

Lemma Qc_div_self (n : Z) :
  (1 <= n)%Z -> @fdiv QcBackend (of_Z n) (of_Z n) = of_Q 1.
Proof.
  intros Hn. cbn. unfold Qcdiv. apply Qcmult_inv_r.
  unfold of_Z; cbn. intros H. apply Q2Qc_eq_iff in H.
  unfold Qeq in H; cbn in H. lia.
Qed.

Lemma Qc_ring :
  ring_theory (@f0 QcBackend) f1 fadd fmul (fun x y => fadd x (fopp y)) fopp
              (@eq F).
Proof. exact Qcrt. Qed.

Lemma euclidean_log_vectorized (p : list Qc) (qs : list (list Qc)) :
  RiemannianMetric.log euclidean_metric (RiemannianMetric.A2 qs)
    (RiemannianMetric.A1 p) =
  List.concat
    (map (fun q => RiemannianMetric.log euclidean_metric
                     (RiemannianMetric.A1 q) (RiemannianMetric.A1 p)) qs).
Proof.
  cbn [RiemannianMetric.log euclidean_metric RiemannianMetric.to_ndarray2].
  rewrite (map_ext _ (fun q => [vsub q p])) by reflexivity.
  rewrite concat_singletons.
  destruct qs as [| q [| q' qs]]; reflexivity.
Qed.


(** ** Runs of the properties of connection.py *)

Lemma ladder_parallel_transport_scaling_witness :
  exists st r,
    map this (map (fun x => fdiv x (fpow (of_Q (inject_Z 3)) (Q2Qc 2)))
                  (qv [1; 2]%Q)) = [1 # 9; 2 # 9]%Q /\
    Connection.rung_loop flat_connection
      (Connection._pole_ladder_step flat_connection)
      (qv [0; 0]%Q) (qv [5; 5]%Q) 3 false (Connection.range 3)
      {| Connection.current_point := qv [0; 0]%Q;
         Connection.base_shoot :=
           Connection.exp flat_connection
             (map (fun x => fdiv x (fpow (of_Q (inject_Z 3)) (Q2Qc 2)))
                  (qv [1; 2]%Q))
             (qv [0; 0]%Q);
         Connection.trajectory := [] |} = Ok st /\
    map this (Connection.log flat_connection (Connection.base_shoot st)
                (Connection.current_point st)) = [- (1 # 9); - (2 # 9)]%Q /\
    Connection.ladder_parallel_transport flat_connection
      (qv [1; 2]%Q) (qv [0; 0]%Q) (qv [5; 5]%Q) (Connection.PyInt 3) "pole"
      (Q2Qc 2) false = Ok r /\
    Connection.transported_tangent_vec r =
      map (fun x => fmul (fmul x (of_Q (-1)))
                         (fpow (of_Q (inject_Z 3)) (Q2Qc 2)))
          (Connection.log flat_connection (Connection.base_shoot st)
             (Connection.current_point st)) /\
    map this (Connection.transported_tangent_vec r) = [1; 2]%Q.
Proof.
  destruct (ladder_parallel_transport_scaling flat_connection
              (qv [1; 2]%Q) (qv [0; 0]%Q) (qv [5; 5]%Q) 3 "pole" (Q2Qc 2) false
              ltac:(lia) ltac:(vm_compute; reflexivity)
              (or_introl eq_refl))
    as (single_step & st & r & Hm & Hst & Hr & Hpole & _).
  injection Hm as <-.
  exists st, r.
  split; [vm_compute; reflexivity |].
  split; [exact Hst |].
  assert (Hlog :
    map this
      match
        Connection.rung_loop flat_connection
          (Connection._pole_ladder_step flat_connection)
          (qv [0; 0]%Q) (qv [5; 5]%Q) 3 false (Connection.range 3)
          {| Connection.current_point := qv [0; 0]%Q;
             Connection.base_shoot :=
               Connection.exp flat_connection
                 (map (fun x => fdiv x (fpow (of_Q (inject_Z 3)) (Q2Qc 2)))
                      (qv [1; 2]%Q))
                 (qv [0; 0]%Q);
             Connection.trajectory := [] |}
      with
      | Ok st => Connection.log flat_connection (Connection.base_shoot st)
                   (Connection.current_point st)
      | Raise _ => []
      end = [- (1 # 9); - (2 # 9)]%Q) by (vm_compute; reflexivity).
  rewrite Hst in Hlog.
  split; [exact Hlog |].
  split; [exact Hr |].
  pose proof (Hpole eq_refl eq_refl) as Ht.
  split; [exact Ht |].
  assert (Hval :
    map this
      match
        Connection.ladder_parallel_transport flat_connection
          (qv [1; 2]%Q) (qv [0; 0]%Q) (qv [5; 5]%Q) (Connection.PyInt 3)
          "pole" (Q2Qc 2) false
      with
      | Ok r => Connection.transported_tangent_vec r
      | Raise _ => []
      end = [1; 2]%Q) by (vm_compute; reflexivity).
  rewrite Hr in Hval. exact Hval.
Defined.

Lemma invalid_arguments_raise_witness :
  (exists msg,
      Connection.ladder_parallel_transport flat_connection
        (qv [1; 2]%Q) (qv [0; 0]%Q) (qv [5; 5]%Q) (Connection.PyInt 1) "pole"
        (Q2Qc 0) false = Raise (ValueError msg)) /\
  (exists msg,
      Connection.ladder_parallel_transport flat_connection
        (qv [1; 2]%Q) (qv [0; 0]%Q) (qv [5; 5]%Q) (Connection.PyInt 0) "pole"
        (Q2Qc 1) false = Raise (ValueError msg)).
Proof.
  split.
  - apply (proj1 (invalid_arguments_raise flat_connection)).
    right. vm_compute. reflexivity.
  - apply (proj1 (invalid_arguments_raise flat_connection)).
    left. reflexivity.
Defined.

Lemma ladder_end_point_witness :
  exists r,
    Connection.ladder_parallel_transport flat_connection
      (qv [1; 2]%Q) (qv [0; 0]%Q) (qv [5; 5]%Q) (Connection.PyInt 3) "schild"
      (Q2Qc 1) false = Ok r /\
    Connection.end_point r =
      Connection.exp flat_connection (qv [5; 5]%Q) (qv [0; 0]%Q).
Proof.
  destruct (ladder_end_point flat_connection
              (qv [1; 2]%Q) (qv [0; 0]%Q) (qv [5; 5]%Q) 3 "schild" (Q2Qc 1) false
              Qc_div_self Qcmult_1_l
              ltac:(lia) ltac:(vm_compute; reflexivity)
              (or_intror eq_refl))
    as (r & Hr & _ & He).
  exists r. split; [exact Hr | exact He].
Defined.

Lemma geodesic_equation_contraction_witness :
  exists acceleration,
    Connection.geodesic_equation flat_connection (qv [0; 0]%Q, qv [1; 2]%Q) =
      [qv [1; 2]%Q; acceleration] /\
    map this acceleration = [-27; -10]%Q.
Proof.
  eexists. split.
  - exact (geodesic_equation_contraction Qc_ring flat_connection
             (qv [0; 0]%Q) (qv [1; 2]%Q)
             ltac:(repeat constructor)).
  - vm_compute. reflexivity.
Defined.

(** ** Runs of the properties of riemannian_metric.py *)

(** One vector against the two vectors of the basis, at two base
    points: the two coordinates of the vector. *)
Lemma inner_product_broadcasting_witness :
  let tangent_vec_a := RiemannianMetric.A2 [qv [3; 7]%Q] in
  let tangent_vec_b := RiemannianMetric.A2 [qv [1; 0]%Q; qv [0; 1]%Q] in
  let base_point := RiemannianMetric.A2 [qv [0; 0]%Q; qv [1; 1]%Q] in
  exists r,
    RiemannianMetric.inner_product euclidean_metric tangent_vec_a tangent_vec_b
      base_point = Ok r /\
    r = map (fun n =>
               [RiemannianMetric.quadratic_form 2
                  (RiemannianMetric.broadcast_get [qv [3; 7]%Q] [] n)
                  (RiemannianMetric.broadcast_get [identity 2; identity 2] [] n)
                  (RiemannianMetric.broadcast_get
                     [qv [1; 0]%Q; qv [0; 1]%Q] [] n)])
            [0; 1] /\
    map (map this) r = [[3]; [7]]%Q.
Proof.
  intros tangent_vec_a tangent_vec_b base_point.
  destruct (inner_product_broadcasting euclidean_metric
              tangent_vec_a tangent_vec_b base_point) as (Hrun & _ & Hvalue).
  destruct Hrun as (r & Hr & _).
  exists r. split; [exact Hr |].
  assert (Hshape_a :
    Forall (fun u : list Qc => List.length u = 2)
           (RiemannianMetric.to_ndarray2 tangent_vec_a))
    by (repeat constructor).
  assert (Hshape_b :
    Forall (fun v : list Qc => List.length v = 2)
           (RiemannianMetric.to_ndarray2 tangent_vec_b))
    by (repeat constructor).
  assert (Hshape_m :
    Forall (fun m : list (list Qc) =>
              List.length m = 2 /\ List.length (hd [] m) = 2)
           (RiemannianMetric.to_ndarray3
              (RiemannianMetric.inner_product_matrix euclidean_metric
                 base_point)))
    by (repeat constructor).
  pose proof (Hvalue 2 r Hshape_a Hshape_b Hshape_m Hr) as Hval.
  split; [exact Hval |].
  rewrite Hval. vm_compute. reflexivity.
Defined.

(** From the origin to the point [(3, 4)] of the plane: the squared
    distance is [25] and the distance [5]. *)
Lemma squared_dist_and_dist_witness :
  let point_a := RiemannianMetric.A1 (qv [0; 0]%Q) in
  let point_b := RiemannianMetric.A1 (qv [3; 4]%Q) in
  exists sq_dist,
    fst (RiemannianMetric.squared_dist euclidean_metric point_a point_b []) =
      Ok sq_dist /\
    map (map this) sq_dist = [[25]]%Q /\
    fst (RiemannianMetric.dist euclidean_metric point_a point_b []) =
      Ok (map (map fsqrt) sq_dist) /\
    map (map this) (map (map fsqrt) sq_dist) = [[5]]%Q.
Proof.
  intros point_a point_b.
  destruct (squared_dist_and_dist euclidean_metric point_a point_b [])
    as (_ & Hdist & _ & _).
  assert (Hval :
    map (map this)
        match
          fst (RiemannianMetric.squared_dist euclidean_metric point_a point_b [])
        with
        | Ok sq_dist => sq_dist
        | Raise _ => []
        end = [[25]]%Q) by (vm_compute; reflexivity).
  assert (Hroot :
    map (map this)
        match
          fst (RiemannianMetric.squared_dist euclidean_metric point_a point_b [])
        with
        | Ok sq_dist => map (map fsqrt) sq_dist
        | Raise _ => []
        end = [[5]]%Q) by (vm_compute; reflexivity).
  destruct (fst (RiemannianMetric.squared_dist euclidean_metric
                   point_a point_b [])) as [sq_dist | e] eqn:Hrun.
  - exists sq_dist. split; [reflexivity |].
    split; [exact Hval |].
    split; [exact (Hdist sq_dist eq_refl) | exact Hroot].
  - discriminate Hval.
Defined.


Lemma diameter_maximum_of_pairs_witness :
  exists d,
    fst (RiemannianMetric.diameter euclidean_metric
           [qv [0; 0]%Q; qv [3; 4]%Q; qv [6; 8]%Q] []) = Ok d /\
    this d = 10%Q.
Proof.
  destruct (diameter_maximum_of_pairs euclidean_metric
              Qc_maximum_assoc Qc_sqrt_nonneg euclidean_log_vectorized
              (fun p q => eq_refl) (fun p => eq_refl)
              [qv [0; 0]%Q; qv [3; 4]%Q; qv [6; 8]%Q] []) as [Hrun _].
  rewrite Hrun. eexists. split; [reflexivity | vm_compute; reflexivity].
Defined.

(** ** Where the code departs from the wording of the spec *)

(** C3: on the line, from [0] to the end point [1] with the initial
    tangent vector [5], the shooting vector is [1] and [allclose] fails.
    [Connection.geodesic] raises the [RuntimeError] whose message says
    "too far"; [RiemannianMetric.geodesic] fails a bare assertion
    instead, which is neither that error nor any [RuntimeError]. *)
Theorem metric_geodesic_fails_assertion :
  let initial_point := RiemannianMetric.A1 (qv [0]%Q) in
  let end_point := RiemannianMetric.A1 (qv [1]%Q) in
  let initial_tangent_vec := RiemannianMetric.A1 (qv [5]%Q) in
  map (map this)
      (RiemannianMetric.log euclidean_metric end_point initial_point) =
    [[1]]%Q /\
  RiemannianMetric.allclose_arr
    (RiemannianMetric.log euclidean_metric end_point initial_point)
    initial_tangent_vec = Ok false /\
  fst (RiemannianMetric.geodesic euclidean_metric initial_point
         (Some end_point) (Some initial_tangent_vec) []) =
    Raise AssertionError /\
  (forall msg,
      fst (RiemannianMetric.geodesic euclidean_metric initial_point
             (Some end_point) (Some initial_tangent_vec) []) <>
      Raise (RuntimeError msg)) /\
  allclose (Connection.log flat_connection (qv [1]%Q) (qv [0]%Q))
           (qv [5]%Q) = false /\
  Connection.geodesic flat_connection (qv [0]%Q) (Some (qv [1]%Q))
    (Some (qv [5]%Q)) =
    Raise (RuntimeError
      "The shooting tangent vector is too far from the input initial tangent vector.").
Proof.
  cbv zeta.
  split; [vm_compute; reflexivity |].
  split; [vm_compute; reflexivity |].
  assert (H : fst (RiemannianMetric.geodesic euclidean_metric
                     (RiemannianMetric.A1 (qv [0]%Q))
                     (Some (RiemannianMetric.A1 (qv [1]%Q)))
                     (Some (RiemannianMetric.A1 (qv [5]%Q))) []) =
              Raise AssertionError) by reflexivity.
  split; [exact H |].
  split; [intros msg; rewrite H; discriminate |].
  split; [vm_compute; reflexivity | reflexivity].
Qed.

(** One operand of batch size one does not make [inner_product]
    succeed: batch sizes one, three and two raise. *)
Lemma inner_product_size_one_not_enough :
  let tangent_vec_a := RiemannianMetric.A2 [qv [1]%Q] in
  let tangent_vec_b := RiemannianMetric.A2 [qv [1]%Q; qv [2]%Q; qv [3]%Q] in
  let base_point := RiemannianMetric.A2 [qv [0]%Q; qv [0]%Q] in
  List.length (RiemannianMetric.to_ndarray2 tangent_vec_a) = 1 /\
  List.length (RiemannianMetric.to_ndarray2 tangent_vec_b) = 3 /\
  List.length (RiemannianMetric.to_ndarray3
                 (RiemannianMetric.inner_product_matrix euclidean_metric
                    base_point)) = 2 /\
  RiemannianMetric.inner_product euclidean_metric tangent_vec_a tangent_vec_b
    base_point = Raise (ValueError "Shape mismatch for einsum.").
Proof. repeat split. Qed.

(** C7: for the batch of the one point [1] of the line and
    [init_points] holding the point [2], [adaptive_gradientdescent_mean]
    returns [2], the first of [init_points], and not the single point of
    the batch; it calls nothing.  [mean] returns the single point, and so
    does [adaptive_gradientdescent_mean] without [init_points]. *)
Theorem adaptive_mean_returns_init_point :
  RiemannianMetric.adaptive_gradientdescent_mean euclidean_metric
    [qv [1]%Q] None 32 (Q2Qc (1 # 1000000000000)) [qv [2]%Q] [] =
    (Ok [qv [2]%Q], []) /\
  RiemannianMetric.adaptive_gradientdescent_mean euclidean_metric
    [qv [1]%Q] None 32 (Q2Qc (1 # 1000000000000)) [] [] =
    (Ok [qv [1]%Q], []) /\
  RiemannianMetric.mean euclidean_metric (RiemannianMetric.A2 [qv [1]%Q])
    None 32 (Q2Qc (1 # 1000000000000)) [] = (Ok [qv [1]%Q], []) /\
  [qv [2]%Q] <> [qv [1]%Q].
Proof.
  split; [reflexivity |]. split; [reflexivity |]. split; [reflexivity |].
  intros H. apply (f_equal (map (map this))) in H.
  vm_compute in H. discriminate.
Qed.


End RationalFacts.

(** * The ladder schemes on a flat connection *)

Section FlatLadder.
Context {B : Backend}.
Variable self : Connection.t.
Hypothesis Fring :
  ring_theory f0 f1 fadd fmul (fun x y => fadd x (fopp y)) fopp (@eq F).
Hypothesis exp_flat : forall v p, Connection.exp self v p = vec_add p v.
Hypothesis log_flat : forall q p, Connection.log self q p = vec_sub q p.
Hypothesis half : forall x : F,
  fadd (fmul (fdiv (of_Q 1) (of_Q 2)) x) (fmul (fdiv (of_Q 1) (of_Q 2)) x) = x.
Hypothesis minus_one : of_Q (-1) = fopp (of_Q 1).

Add Ring F_ring_flat : Fring.

Import Connection.

Lemma length_vec_add (u v : vec) :
  List.length u = List.length v -> List.length (vec_add u v) = List.length u.
Proof.
  intros H. unfold vec_add. rewrite length_map, length_combine. lia.
Qed.

Lemma pole_reflection_scalar (bp np w : F) :
  let h := fdiv (of_Q 1) (of_Q 2) in
  let mid := fadd bp (fmul h (fadd np (fopp bp))) in
  fadd mid (fopp (fadd (fadd bp w) (fopp mid))) = fadd np (fopp w).
Proof.
  cbv zeta. set (h := fdiv (of_Q 1) (of_Q 2)). set (x := fadd np (fopp bp)).
  transitivity (fadd (fadd bp (fadd (fmul h x) (fmul h x))) (fopp w)); [ring |].
  fold h in half. rewrite (half x). unfold x. ring.
Qed.

Lemma schild_reflection_scalar (bp np w : F) :
  let h := fdiv (of_Q 1) (of_Q 2) in
  let bs := fadd bp w in
  let mid := fadd bs (fmul h (fadd np (fopp bs))) in
  fadd mid (fopp (fadd bp (fopp mid))) = fadd np w.
Proof.
  cbv zeta. set (h := fdiv (of_Q 1) (of_Q 2)).
  set (x := fadd np (fopp (fadd bp w))).
  transitivity (fadd (fadd (fadd bp w) (fadd (fmul h x) (fmul h x))) w);
    [ring |].
  fold h in half. rewrite (half x). unfold x. ring.
Qed.

Lemma pole_reflection (bp np w : vec) :
  List.length bp = List.length np -> List.length np = List.length w ->
  let mid :=
    vec_add bp (scale_l (fdiv (of_Q 1) (of_Q 2)) (vec_sub np bp)) in
  vec_add mid (vneg (vec_sub (vec_add bp w) mid)) = vec_add np (vneg w).
Proof.
  revert np w; induction bp as [| b bp IH]; intros [| n np] [| x w] H1 H2;
    cbn in H1, H2; try discriminate; [reflexivity |].
  cbn. f_equal.
  - apply pole_reflection_scalar.
  - apply IH; lia.
Qed.

Lemma schild_reflection (bp np w : vec) :
  List.length bp = List.length np -> List.length np = List.length w ->
  let bs := vec_add bp w in
  let mid :=
    vec_add bs (scale_l (fdiv (of_Q 1) (of_Q 2)) (vec_sub np bs)) in
  vec_add mid (vneg (vec_sub bp mid)) = vec_add np w.
Proof.
  revert np w; induction bp as [| b bp IH]; intros [| n np] [| x w] H1 H2;
    cbn in H1, H2; try discriminate; [reflexivity |].
  cbn. f_equal.
  - apply schild_reflection_scalar.
  - apply IH; lia.
Qed.

Lemma vneg_involutive (w : vec) : vneg (vneg w) = w.
Proof.
  unfold vneg. rewrite map_map.
  rewrite (map_ext _ (fun x => x)); [apply map_id | intros x; ring].
Qed.

Lemma length_vneg (w : vec) : List.length (vneg w) = List.length w.
Proof. apply length_map. Qed.

Lemma vec_sub_add_cancel (c w : vec) :
  List.length c = List.length w -> vec_sub (vec_add c w) c = w.
Proof.
  revert w; induction c as [| a c IH]; intros [| x w] H; cbn in H;
    try discriminate; [reflexivity |].
  cbn. f_equal; [ring | apply IH; lia].
Qed.

Lemma pole_ladder_step_flat (bp np w : vec) rg s :
  List.length bp = List.length np -> List.length np = List.length w ->
  _pole_ladder_step self bp np (vec_add bp w) rg = Ok s ->
  step_end_point s = vec_add np (vneg w).
Proof.
  intros H1 H2. unfold _pole_ladder_step. rewrite !exp_flat, !log_flat.
  rewrite (pole_reflection bp np w H1 H2).
  destruct rg; cbn; intros H; injection H as <-; reflexivity.
Qed.

Lemma schild_ladder_step_flat (bp np w : vec) rg s :
  List.length bp = List.length np -> List.length np = List.length w ->
  _schild_ladder_step self bp np (vec_add bp w) rg = Ok s ->
  step_end_point s = vec_add np w.
Proof.
  intros H1 H2. unfold _schild_ladder_step. rewrite !exp_flat, !log_flat.
  rewrite (schild_reflection bp np w H1 H2).
  destruct rg; cbn; intros H; injection H as <-; reflexivity.
Qed.

Lemma rung_loop_flat single_step (f : vec -> vec)
    (base_point direction : vec) n_rungs rg :
  (forall w, List.length (f w) = List.length w) ->
  (forall bp np w s,
      List.length bp = List.length np -> List.length np = List.length w ->
      single_step bp np (vec_add bp w) rg = Ok s ->
      step_end_point s = vec_add np (f w)) ->
  List.length base_point = List.length direction ->
  forall l st st' w,
    List.length (current_point st) = List.length base_point ->
    List.length w = List.length base_point ->
    base_shoot st = vec_add (current_point st) w ->
    rung_loop self single_step base_point direction n_rungs rg l st = Ok st' ->
    base_shoot st' = vec_add (current_point st') (Nat.iter (List.length l) f w) /\
    List.length (current_point st') = List.length base_point.
Proof.
  intros Hf Hstep Hdir.
  induction l as [| i l IH]; intros st st' w Hcur Hw Hshoot Hrun.
  - cbn in Hrun. injection Hrun as <-. cbn. auto.
  - cbn [rung_loop] in Hrun. unfold rung_body in Hrun.
    rewrite Hshoot in Hrun.
    set (next_point := exp self (scale_l (fdiv (of_Z (i + 1)) (of_Z n_rungs))
                                  direction) base_point) in *.
    assert (Hnext : List.length next_point = List.length base_point).
    { unfold next_point. rewrite exp_flat. apply length_vec_add.
      unfold scale_l. rewrite length_map. exact Hdir. }
    destruct (single_step (current_point st) next_point
                (vec_add (current_point st) w) rg) as [s | e] eqn:Es;
      cbn [rbind] in Hrun; [| discriminate].
    apply Hstep in Es; [| lia | lia].
    apply (IH _ _ (f w)) in Hrun; cbn; try assumption.
    + destruct Hrun as [Hr Hl]. split; [| exact Hl].
      rewrite Hr. f_equal. clear. induction (List.length l) as [| k IHk];
        [reflexivity |]. cbn. rewrite <- IHk. reflexivity.
    + rewrite Hf. exact Hw.
Qed.

Lemma iter_vneg (k : nat) (w : vec) :
  Nat.iter k vneg w = if Nat.even k then w else vneg w.
Proof.
  induction k as [| k IH]; [reflexivity |].
  change (Nat.iter (S k) vneg w) with (vneg (Nat.iter k vneg w)).
  rewrite IH.
  rewrite Nat.even_succ, <- Nat.negb_even.
  destruct (Nat.even k); cbn; [reflexivity | apply vneg_involutive].
Qed.

Lemma iter_id {A} (k : nat) (w : A) : Nat.iter k (fun x => x) w = w.
Proof. induction k as [| k IH]; [reflexivity | exact IH]. Qed.

Lemma length_range (n : Z) : List.length (range n) = Z.to_nat n.
Proof. unfold range. now rewrite length_map, length_seq. Qed.

Lemma parity_of_nat (k : nat) :
  (Z.of_nat k mod 2 =? 1)%Z = negb (Nat.even k).
Proof.
  enough (H : (Z.of_nat k mod 2 =? 1)%Z = negb (Nat.even k) /\
              (Z.of_nat (S k) mod 2 =? 1)%Z = negb (Nat.even (S k)))
    by apply H.
  induction k as [| k [IH1 IH2]]; [split; reflexivity |].
  split; [exact IH2 |].
  replace (Z.of_nat (S (S k))) with (Z.of_nat k + 1 * 2)%Z by lia.
  rewrite Z.mod_add by lia. exact IH1.
Qed.

Lemma scale_minus_one (w : vec) : scale_r (vneg w) (of_Q (-1)) = w.
Proof.
  unfold scale_r, vneg. rewrite map_map, minus_one.
  rewrite (map_ext _ (fun x => x)); [apply map_id | intros x].
  change (of_Q 1) with f1. ring.
Qed.

(** X1: on a flat connection, where [exp(v, p) = p + v] and
    [log(q, p) = q - p], both ladder schemes return the input vector
    itself, for every number of rungs: the reflections of the pole ladder
    negate the vector at each rung and the sign flip for an odd number of
    rungs undoes the last one. *)
Theorem ladder_exact_on_flat_connection
    (tangent_vec base_point direction : vec) (n_rungs : Z) (scheme : string)
    (alpha : F) (return_geodesics : bool) :
  (forall x, fmul (fdiv x (fpow (of_Z n_rungs) alpha))
                  (fpow (of_Z n_rungs) alpha) = x) ->
  List.length tangent_vec = List.length base_point ->
  List.length direction = List.length base_point ->
  (1 <= n_rungs)%Z ->
  fltb alpha (of_Q 1) = false ->
  scheme = "pole"%string \/ scheme = "schild"%string ->
  exists r,
    ladder_parallel_transport self tangent_vec base_point direction
      (PyInt n_rungs) scheme alpha return_geodesics = Ok r /\
    transported_tangent_vec r = tangent_vec.
Proof.
  intros Hscale Htv Hdir Hn Halpha Hscheme.
  destruct (ladder_parallel_transport_run self tangent_vec base_point direction
              n_rungs scheme alpha return_geodesics Hn Halpha Hscheme)
    as (single_step & st & Hm & Hst & Hr).
  eexists. split; [exact Hr |]. cbn [transported_tangent_vec].
  set (s := fpow (of_Z n_rungs) alpha) in *.
  set (w := vdiv tangent_vec s) in *.
  assert (Hw : List.length w = List.length base_point)
    by (unfold w, vdiv; rewrite length_map; exact Htv).
  assert (Hback : scale_r w s = tangent_vec).
  { unfold w, scale_r, vdiv. rewrite map_map.
    rewrite (map_ext _ (fun x => x)); [apply map_id | exact Hscale]. }
  rewrite exp_flat in Hst. rewrite log_flat.
  destruct Hscheme as [-> | ->]; cbn in Hm; injection Hm as <-.
  - destruct (rung_loop_flat (_pole_ladder_step self) vneg base_point direction
                n_rungs return_geodesics length_vneg
                (fun bp np w0 s0 H1 H2 => pole_ladder_step_flat bp np w0 _ s0 H1 H2)
                (eq_sym Hdir) (range n_rungs)
                {| current_point := base_point;
                   base_shoot := vec_add base_point w;
                   trajectory := [] |} st w eq_refl Hw eq_refl Hst)
      as [Hshoot Hlen].
    rewrite Hshoot, length_range, iter_vneg.
    rewrite vec_sub_add_cancel
      by (destruct (Nat.even _); rewrite ?length_vneg; lia).
    replace (n_rungs mod 2 =? 1)%Z with (negb (Nat.even (Z.to_nat n_rungs)))
      by (rewrite <- parity_of_nat, Z2Nat.id by lia; reflexivity).
    destruct (Nat.even (Z.to_nat n_rungs)); cbn [negb andb String.eqb].
    + exact Hback.
    + cbn. rewrite scale_minus_one. exact Hback.
  - destruct (rung_loop_flat (_schild_ladder_step self) (fun x => x) base_point
                direction n_rungs return_geodesics (fun w0 => eq_refl)
                (fun bp np w0 s0 H1 H2 => schild_ladder_step_flat bp np w0 _ s0 H1 H2)
                (eq_sym Hdir) (range n_rungs)
                {| current_point := base_point;
                   base_shoot := vec_add base_point w;
                   trajectory := [] |} st w eq_refl Hw eq_refl Hst)
      as [Hshoot Hlen].
    rewrite Hshoot, iter_id.
    rewrite vec_sub_add_cancel by lia.
    rewrite Bool.andb_false_r. exact Hback.
Qed.

End FlatLadder.

(** * More on [ladder_parallel_transport] and [geodesic] *)

Section LadderShape.
Context {B : Backend}.
Variable self : Connection.t.

Import Connection.

Lemma pole_ladder_step_geodesics (bp np bs : vec) rg s :
  _pole_ladder_step self bp np bs rg = Ok s ->
  List.length (step_geodesics s) = if rg then 3 else 0.
Proof. destruct rg; cbn; intros H; injection H as <-; reflexivity. Qed.

Lemma schild_ladder_step_geodesics (bp np bs : vec) rg s :
  _schild_ladder_step self bp np bs rg = Ok s ->
  List.length (step_geodesics s) = if rg then 4 else 0.
Proof. destruct rg; cbn; intros H; injection H as <-; reflexivity. Qed.

Lemma rung_loop_trajectory single_step (g : nat)
    (base_point direction : vec) n_rungs rg :
  (forall bp np bs s,
      single_step bp np bs rg = Ok s -> List.length (step_geodesics s) = g) ->
  forall l st st',
    Forall (fun geodesics => List.length geodesics = g) (trajectory st) ->
    rung_loop self single_step base_point direction n_rungs rg l st = Ok st' ->
    List.length (trajectory st') = List.length (trajectory st) + List.length l /\
    Forall (fun geodesics => List.length geodesics = g) (trajectory st').
Proof.
  intros Hstep. induction l as [| i l IH]; intros st st' Hall Hrun.
  - cbn in Hrun. injection Hrun as <-. cbn. split; [lia | exact Hall].
  - cbn [rung_loop] in Hrun. unfold rung_body in Hrun.
    destruct (single_step _ _ _ _) as [s | e] eqn:Es; cbn [rbind] in Hrun;
      [| discriminate].
    apply IH in Hrun.
    + cbn [trajectory] in Hrun. rewrite length_app in Hrun. cbn in Hrun.
      destruct Hrun as [Hlen Hf]. split; [cbn; lia | exact Hf].
    + cbn [trajectory]. apply Forall_app. split; [exact Hall |].
      constructor; [| constructor]. exact (Hstep _ _ _ _ Es).
Qed.

(** X2: the trajectory returned by [ladder_parallel_transport] has one entry
    for each rung; each entry holds the three geodesics of a pole-ladder
    rung or the four geodesics of a Schild's-ladder rung when
    [return_geodesics] is set, and nothing otherwise. *)
Theorem ladder_trajectory_shape
    (tangent_vec base_point direction : vec) (n_rungs : Z) (scheme : string)
    (alpha : F) (return_geodesics : bool) :
  (1 <= n_rungs)%Z ->
  fltb alpha (of_Q 1) = false ->
  scheme = "pole"%string \/ scheme = "schild"%string ->
  exists r,
    ladder_parallel_transport self tangent_vec base_point direction
      (PyInt n_rungs) scheme alpha return_geodesics = Ok r /\
    List.length (ladder_trajectory r) = Z.to_nat n_rungs /\
    Forall (fun geodesics =>
              List.length geodesics =
              if return_geodesics
              then (if String.eqb scheme "pole" then 3 else 4)
              else 0)
           (ladder_trajectory r).
Proof.
  intros Hn Halpha Hscheme.
  destruct (ladder_parallel_transport_run self tangent_vec base_point direction
              n_rungs scheme alpha return_geodesics Hn Halpha Hscheme)
    as (single_step & st & Hm & Hst & Hr).
  eexists. split; [exact Hr |]. cbn [ladder_trajectory].
  assert (Hstep : forall bp np bs s,
             single_step bp np bs return_geodesics = Ok s ->
             List.length (step_geodesics s) =
             if return_geodesics
             then (if String.eqb scheme "pole" then 3 else 4)
             else 0).
  { destruct Hscheme as [-> | ->]; cbn in Hm; injection Hm as <-;
      intros bp np bs s Hs.
    - apply pole_ladder_step_geodesics in Hs. destruct return_geodesics; exact Hs.
    - apply schild_ladder_step_geodesics in Hs. destruct return_geodesics; exact Hs. }
  destruct (rung_loop_trajectory single_step _ base_point direction n_rungs
              return_geodesics Hstep (range n_rungs)
              {| current_point := base_point;
                 base_shoot :=
                   exp self (vdiv tangent_vec (fpow (of_Z n_rungs) alpha))
                       base_point;
                 trajectory := [] |} st
              (Forall_nil _) Hst) as [Hlen Hall].
  cbn [trajectory List.length] in Hlen.
  unfold range in Hlen. rewrite length_map, length_seq in Hlen.
  split; [exact Hlen | exact Hall].
Qed.

(** X3: with valid [n_rungs] and [alpha], a [scheme] other than ['pole'] and
    ['schild'] is a missing key of the table of step methods: the call
    raises [KeyError] and returns nothing. *)
Theorem ladder_unknown_scheme
    (tangent_vec base_point direction : vec) (n_rungs : Z) (scheme : string)
    (alpha : F) (return_geodesics : bool) :
  (1 <= n_rungs)%Z ->
  fltb alpha (of_Q 1) = false ->
  scheme <> "pole"%string -> scheme <> "schild"%string ->
  ladder_parallel_transport self tangent_vec base_point direction
    (PyInt n_rungs) scheme alpha return_geodesics = Raise (KeyError scheme).
Proof.
  intros Hn Halpha Hpole Hschild.
  unfold ladder_parallel_transport.
  rewrite (check_integer_positive _ _ Hn); cbn [rbind].
  rewrite Halpha. unfold methods.
  rewrite (proj2 (String.eqb_neq scheme "pole") Hpole).
  rewrite (proj2 (String.eqb_neq scheme "schild") Hschild).
  reflexivity.
Qed.

(** X4: a geodesic given by its end point: the path returns one point for
    each time; when [exp] undoes [log] between the two points it reaches
    the end point at time one, and when the exponential of the zero
    vector at the initial point is the initial point it starts there at
    time zero. *)
Theorem geodesic_through_end_point (initial_point end_point : vec) :
  exp self (log self end_point initial_point) initial_point = end_point ->
  exp self (map (fun _ => of_Q 0) (log self end_point initial_point))
      initial_point = initial_point ->
  (forall x : F, fmul (of_Q 1) x = x) ->
  (forall x : F, fmul (of_Q 0) x = of_Q 0) ->
  exists path,
    geodesic self initial_point (Some end_point) None = Ok path /\
    (forall t, List.length (path t) = List.length t) /\
    path [of_Q 1] = [end_point] /\
    path [of_Q 0] = [initial_point].
Proof.
  intros Hinv Hzero Hone Hmul0.
  eexists. split; [reflexivity |]. cbn beta.
  split; [intros t; apply length_map |].
  split; cbn [map]; f_equal.
  - unfold scale_l. rewrite (map_ext _ (fun x => x) Hone), map_id. exact Hinv.
  - unfold scale_l. rewrite (map_ext _ (fun _ => of_Q 0) Hmul0). exact Hzero.
Qed.

End LadderShape.

Section FlatGeodesicEquation.
Context {B : Backend}.
Hypothesis Fring :
  ring_theory f0 f1 fadd fmul (fun x y => fadd x (fopp y)) fopp (@eq F).

Add Ring F_ring_zero : Fring.

Lemma fsum_all_zero (l : list F) : Forall (eq f0) l -> fsum l = f0.
Proof.
  induction 1 as [| x l Hx _ IH]; [reflexivity |].
  cbn. subst x. fold (fsum l). rewrite IH. ring.
Qed.

(** X5: where all the Christoffel symbols are zero, the acceleration of the
    geodesic equation is zero in every component, whatever the velocity:
    the geodesics are straight lines. *)
Theorem geodesic_equation_flat (self : Connection.t) (position velocity : vec) :
  Forall (Forall (Forall (eq f0))) (Connection.christoffels self position) ->
  Connection.geodesic_equation self (position, velocity) =
  [velocity; map (fun _ => f0) (Connection.christoffels self position)].
Proof.
  intros Hzero. unfold Connection.geodesic_equation.
  f_equal. f_equal.
  unfold vneg, Connection.einsum_kj_j, Connection.einsum_kij_i.
  rewrite !map_map. apply map_ext_in. intros gamma_k Hin.
  rewrite Forall_forall in Hzero. specialize (Hzero _ Hin).
  transitivity (fopp f0); [| ring]. f_equal.
  apply fsum_all_zero. apply Forall_forall. intros x Hx.
  apply in_map_iff in Hx. destruct Hx as [[aux v] [<- Hx]]. cbn [fst snd].
  apply in_combine_l in Hx. apply in_map_iff in Hx.
  destruct Hx as [j [<- _]].
  rewrite fsum_all_zero; [ring |].
  apply Forall_forall. intros y Hy.
  apply in_map_iff in Hy. destruct Hy as [[row vi] [<- Hy]]. cbn [fst snd].
  apply in_combine_l in Hy.
  rewrite Forall_forall in Hzero. specialize (Hzero _ Hy).
  assert (Hnth : nth j row f0 = f0).
  { destruct (Nat.lt_ge_cases j (List.length row)) as [Hj | Hj].
    - rewrite Forall_forall in Hzero. symmetry. apply Hzero. now apply nth_In.
    - now apply nth_overflow. }
  rewrite Hnth. ring.
Qed.

End FlatGeodesicEquation.

(** * More on riemannian_metric.py *)

Section DescentFacts.
Context {B : Backend}.
Variable self : RiemannianMetric.t.

Import RiemannianMetric.

(** What the descent loop keeps, from any loop variables. *)
Lemma descent_loop_invariant (points weights : batch) (sum_weights epsilon : F) :
  forall budget vars tr,
  exists vars' calls,
    descent_loop self points weights sum_weights epsilon budget vars tr =
      (Ok vars', tr ++ calls) /\
    iter vars <= iter vars' <= iter vars + budget /\
    List.length calls = 2 * (iter vars' - iter vars) /\
    Forall (fun ev => match ev with
                      | EvExp _ _ | EvLog _ _ => True
                      | _ => False
                      end) calls /\
    ((forall x y z : F,
         fltb x y = true -> fltb y z = true -> fltb x z = true) ->
     (current_mean vars' = current_mean vars /\
      current_tangent_mean vars' = current_tangent_mean vars /\
      norm_current_tangent_mean vars' = norm_current_tangent_mean vars) \/
     fltb (norm_current_tangent_mean vars') (norm_current_tangent_mean vars)
       = true) /\
    (norm_current_tangent_mean vars = linalg_norm (current_tangent_mean vars) ->
     norm_current_tangent_mean vars' = linalg_norm (current_tangent_mean vars')).
Proof.
  induction budget as [| budget IH]; intros vars tr.
  - exists vars, []. cbn [descent_loop]. unfold ret. rewrite app_nil_r.
    split; [reflexivity |]. split; [lia |]. split; [cbn; lia |].
    split; [constructor |]. split; [intros _; left; auto | auto].
  - cbn [descent_loop].
    destruct (fltb epsilon (norm_current_tangent_mean vars)).
    + unfold bind. rewrite descent_body_run. cbv zeta.
      match goal with
      | |- context [descent_loop _ _ _ _ _ budget ?v ?t] =>
          set (v1 := v); set (t1 := t)
      end.
      destruct (IH v1 t1) as (vars' & calls & Hrun & Hiter & Hlen & Hev & Hmono & Hinv).
      rewrite Hrun. unfold t1. rewrite <- app_assoc.
      eexists. eexists. split; [reflexivity |].
      revert Hiter Hlen Hmono Hinv. unfold v1. clear Hrun v1 t1 IH.
      match goal with
      | |- context [if ?c then _ else _] => destruct c eqn:Hc
      end; cbn [iter current_mean current_tangent_mean
                norm_current_tangent_mean];
        intros Hiter Hlen Hmono Hinv.
      * split; [lia |]. split; [rewrite length_app; cbn; lia |].
        split; [apply Forall_app; split; [repeat constructor | exact Hev] |].
        split.
        -- intros Htrans. right.
           destruct (Hmono Htrans) as [(_ & _ & ->) | Hlt]; [exact Hc |].
           exact (Htrans _ _ _ Hlt Hc).
        -- intros _. apply Hinv. reflexivity.
      * split; [lia |]. split; [rewrite length_app; cbn; lia |].
        split; [apply Forall_app; split; [repeat constructor | exact Hev] |].
        split; [exact Hmono | exact Hinv].
    + exists vars, []. unfold ret. rewrite app_nil_r.
      split; [reflexivity |]. split; [lia |]. split; [cbn; lia |].
      split; [constructor |]. split; [intros _; left; auto | auto].
Qed.

(** X7: the descent of [adaptive_gradientdescent_mean] never raises and
    never moves to a worse estimate: at its end the norm of the tangent
    mean is the one of the first estimate, with the first estimate kept,
    or strictly below it, provided [<] is transitive; the norm stored is
    the norm of the tangent mean stored. *)
Theorem descent_never_worsens (points : batch) (weights : option arr)
    (n_max_iterations : nat) (epsilon : F) (first_mean : vec)
    (tr : list event) :
  (forall x y z : F, fltb x y = true -> fltb y z = true -> fltb x z = true) ->
  let first_tangent_mean :=
    vdiv (einsum_nk_nj (weights_or_ones weights (List.length points))
            (log self (A2 points) (A1 first_mean)))
         (sum2 (weights_or_ones weights (List.length points))) in
  exists vars tr',
    descent self points weights n_max_iterations epsilon first_mean tr =
      (Ok vars, tr') /\
    norm_current_tangent_mean vars = linalg_norm (current_tangent_mean vars) /\
    ((current_mean vars = A1 first_mean /\
      current_tangent_mean vars = first_tangent_mean) \/
     fltb (norm_current_tangent_mean vars) (linalg_norm first_tangent_mean)
       = true).
Proof.
  intros Htrans. cbv zeta.
  unfold descent, call_log, bind, tell, ret.
  match goal with
  | |- context [descent_loop _ ?p ?w ?sw _ _ ?v ?t] =>
      destruct (descent_loop_invariant p w sw epsilon
                  n_max_iterations v t)
        as (vars & calls & Hrun & _ & _ & _ & Hmono & Hinv)
  end.
  exists vars. eexists. split; [exact Hrun |].
  cbn [current_mean current_tangent_mean norm_current_tangent_mean]
    in Hmono, Hinv.
  split; [apply Hinv; reflexivity |].
  destruct (Hmono Htrans) as [(Hm & Ht & _) | Hlt];
    [left; split; assumption | right; exact Hlt].
Qed.

(** The calls of the descent loop, iteration by iteration: each
    iteration shoots with [exp] from a mean along a vector, then takes
    [log] of the points at the point [exp] returned.  The first
    iteration shoots from the current mean along [tau] times the current
    tangent mean. *)
Lemma descent_loop_calls (points weights : batch) (sum_weights epsilon : F) :
  forall budget vars tr,
  exists vars' (steps : list (vec * arr)),
    descent_loop self points weights sum_weights epsilon budget vars tr =
      (Ok vars',
       tr ++ flat_map
               (fun s =>
                  [EvExp (A2 [fst s]) (snd s);
                   EvLog (A2 points) (A2 (exp self (A2 [fst s]) (snd s)))])
               steps) /\
    iter vars' = iter vars + List.length steps /\
    List.length steps <= budget /\
    (fltb epsilon (norm_current_tangent_mean vars') = false \/
     List.length steps = budget) /\
    hd_error steps =
      match steps with
      | [] => None
      | _ :: _ =>
          Some (scale_l (tau vars) (current_tangent_mean vars),
                current_mean vars)
      end.
Proof.
  induction budget as [| budget IH]; intros vars tr.
  - exists vars, []. cbn [descent_loop flat_map List.length hd_error].
    unfold ret. rewrite app_nil_r.
    repeat split; auto.
  - cbn [descent_loop].
    destruct (fltb epsilon (norm_current_tangent_mean vars)) eqn:Hcond.
    + unfold bind. rewrite descent_body_run. cbv zeta.
      match goal with
      | |- context [descent_loop _ _ _ _ _ budget ?v ?t] =>
          set (v1 := v); set (t1 := t)
      end.
      assert (Hiter : iter v1 = iter vars + 1).
      { subst v1.
        match goal with
        | |- context [if ?c then _ else _] => destruct c
        end; reflexivity. }
      destruct (IH v1 t1) as (vars' & steps & Hrun & Hit & Hle & Hstop & _).
      exists vars',
        ((scale_l (tau vars) (current_tangent_mean vars), current_mean vars)
           :: steps).
      rewrite Hrun. unfold t1. rewrite <- app_assoc.
      cbn [flat_map fst snd app List.length hd_error].
      split; [reflexivity |]. split; [lia |]. split; [lia |].
      split; [| reflexivity].
      destruct Hstop as [Hstop | Hstop]; [left; exact Hstop | right; lia].
    + exists vars, []. cbn [flat_map List.length hd_error].
      unfold ret. rewrite app_nil_r.
      repeat split; auto. lia.
Qed.

(** X8: the descent calls [log] once before the loop, on the points at
    the first estimate, and then, at each iteration, [exp] once and
    [log] once, on the points at the point [exp] returned, in this order
    and nothing else: the calls are that first [log] followed by one pair
    for each of the [k] iterations, [k] at most [n_max_iterations].  The
    first iteration shoots from the first estimate along [1.0] times the
    first tangent mean. *)
Theorem descent_call_budget (points : batch) (weights : option arr)
    (n_max_iterations : nat) (epsilon : F) (first_mean : vec)
    (tr : list event) :
  let first_tangent_mean :=
    map (fun x => fdiv x (sum2 (weights_or_ones weights (List.length points))))
        (einsum_nk_nj (weights_or_ones weights (List.length points))
           (log self (A2 points) (A1 first_mean))) in
  exists vars (steps : list (vec * arr)),
    descent self points weights n_max_iterations epsilon first_mean tr =
      (Ok vars,
       tr ++ EvLog (A2 points) (A1 first_mean)
          :: flat_map
               (fun s =>
                  [EvExp (A2 [fst s]) (snd s);
                   EvLog (A2 points) (A2 (exp self (A2 [fst s]) (snd s)))])
               steps) /\
    iter vars = List.length steps /\
    List.length steps <= n_max_iterations /\
    hd_error steps =
      match steps with
      | [] => None
      | _ :: _ =>
          Some (map (fun x => fmul (of_Q 1) x) first_tangent_mean,
                A1 first_mean)
      end.
Proof.
  cbv zeta. unfold descent, call_log, bind, tell, ret.
  match goal with
  | |- context [descent_loop _ ?p ?w ?sw _ _ ?v ?t] =>
      destruct (descent_loop_calls p w sw epsilon n_max_iterations v t)
        as (vars & steps & Hrun & Hiter & Hle & _ & Hhd)
  end.
  cbn [iter tau current_tangent_mean current_mean] in Hiter, Hhd.
  exists vars, steps. rewrite Hrun, <- app_assoc.
  split; [reflexivity |]. split; [exact Hiter |]. split; [exact Hle |].
  exact Hhd.
Qed.

(** X9: after an improving step of the descent the step size [tau] is not
    below [1.0], whatever it was before, provided [<] is asymmetric: the
    guard [max(1.0, .)] resets a step size that had shrunk. *)
Theorem improving_step_tau_at_least_one (points weights : batch)
    (sum_weights : F) (vars vars' : descent_vars) (tr : list event) :
  (forall x y : F, fltb x y = true -> fltb y x = false) ->
  fst (descent_body self points weights sum_weights vars tr) = Ok vars' ->
  fltb (norm_current_tangent_mean vars') (norm_current_tangent_mean vars)
    = true ->
  fltb (tau vars') (of_Q 1) = false.
Proof.
  intros Hasym Hrun Himproved.
  rewrite descent_body_run in Hrun. cbv zeta in Hrun. cbn [fst] in Hrun.
  injection Hrun as <-.
  match goal with
  | H : context [if ?c then _ else _] |- _ => destruct c eqn:Hc
  end; cbn [tau norm_current_tangent_mean] in *.
  - unfold py_max.
    destruct (fltb (of_Q 1) _) eqn:E; [exact (Hasym _ _ E) |].
    destruct (fltb (of_Q 1) (of_Q 1)) eqn:E1; [| reflexivity].
    rewrite (Hasym _ _ E1) in E1. discriminate.
  - pose proof (Hasym _ _ Himproved) as H. congruence.
Qed.

(** X10: on an empty batch, [mean] and [adaptive_gradientdescent_mean] fail
    on [points[0]] with an [IndexError] before calling anything; given a
    non-empty [init_points], [adaptive_gradientdescent_mean] does not
    fail: it runs its descent from [init_points[0]], whose first call is
    [log] of the empty batch at [init_points[0]], returns the mean the
    descent ends on, and prints its message when the iterations are used
    up. *)
Theorem means_of_empty_batch :
  forall weights n_max_iterations epsilon tr,
    mean self (A2 []) weights n_max_iterations epsilon tr =
      (Raise IndexError, tr) /\
    adaptive_gradientdescent_mean self [] weights n_max_iterations epsilon []
      tr = (Raise IndexError, tr) /\
    forall q init_points,
    exists vars calls,
      descent self [] weights n_max_iterations epsilon q tr =
        (Ok vars, tr ++ EvLog (A2 []) (A1 q) :: calls) /\
      adaptive_gradientdescent_mean self [] weights n_max_iterations epsilon
        (q :: init_points) tr =
        (Ok (match current_mean vars with
             | A1 m => [m]
             | A2 m => m
             end),
         tr ++ EvLog (A2 []) (A1 q) :: calls ++
           (if iter vars =? n_max_iterations
            then [EvPrint n_max_iterations] else [])).
Proof.
  intros weights n_max_iterations epsilon tr.
  split; [reflexivity |]. split; [reflexivity |].
  intros q init_points.
  unfold adaptive_gradientdescent_mean. cbn [List.length Nat.eqb hd].
  unfold bind at 1. unfold ret at 1.
  assert (Hrun : exists vars calls,
             descent self [] weights n_max_iterations epsilon q tr =
               (Ok vars, tr ++ EvLog (A2 []) (A1 q) :: calls)).
  { unfold descent, call_log, bind, tell, ret.
    match goal with
    | |- context [descent_loop _ ?p ?w ?sw _ _ ?v ?t] =>
        destruct (descent_loop_invariant p w sw epsilon
                    n_max_iterations v t) as (vars & calls & Hrun & _)
    end.
    rewrite Hrun, <- app_assoc. exists vars, calls. reflexivity. }
  destruct Hrun as (vars & calls & Hrun).
  exists vars, calls. split; [exact Hrun |].
  unfold bind at 1. rewrite Hrun.
  unfold bind, ret, tell.
  destruct (iter vars =? n_max_iterations).
  - rewrite <- app_assoc. reflexivity.
  - rewrite app_nil_r. reflexivity.
Qed.

End DescentFacts.

Section InnerProductFacts.
Context {B : Backend}.
Variable self : RiemannianMetric.t.

Import RiemannianMetric.

Lemma combine_repeat_l {A C} (x : A) (l : list C) :
  combine (repeat x (List.length l)) l = map (fun y => (x, y)) l.
Proof. induction l as [| y l IH]; cbn; [reflexivity | now rewrite IH]. Qed.

Lemma combine_repeat_r {A C} (x : A) (l : list C) :
  combine l (repeat x (List.length l)) = map (fun y => (y, x)) l.
Proof. induction l as [| y l IH]; cbn; [reflexivity | now rewrite IH]. Qed.

Lemma map_repeat {A C} (f : A -> C) (x : A) (n : nat) :
  map f (repeat x n) = repeat (f x) n.
Proof. induction n as [| n IH]; cbn; [reflexivity | now rewrite IH]. Qed.

(** X11: with one inner-product matrix, broadcasting a single tangent vector
    against a batch gives what the batch of its copies gives, on either
    side of the inner product. *)
Theorem inner_product_broadcast_is_replication
    (a : vec) (bs : batch) (base_point : arr) :
  List.length (to_ndarray3 (inner_product_matrix self base_point)) = 1 ->
  inner_product self (A1 a) (A2 bs) base_point =
    inner_product self (A2 (repeat a (List.length bs))) (A2 bs) base_point /\
  inner_product self (A2 bs) (A1 a) base_point =
    inner_product self (A2 bs) (A2 (repeat a (List.length bs))) base_point.
Proof.
  intros Hmat. unfold inner_product. cbn [to_ndarray2].
  destruct (to_ndarray3 (inner_product_matrix self base_point))
    as [| G [| G' ms]]; cbn in Hmat; try discriminate.
  destruct bs as [| b1 [| b2 bs]].
  - split; reflexivity.
  - split; reflexivity.
  - split.
    + cbn [List.length repeat Nat.eqb negb rbind squeeze0 hd].
      unfold einsum_nj_njk, einsum_nj_jk. cbn [combine map List.length].
      rewrite !length_map, repeat_length.
      cbn [Nat.eqb negb rbind fst snd squeeze0 hd].
      rewrite Nat.eqb_refl. cbn [negb rbind].
      unfold einsum_k_nk, einsum_nk_nk. cbn [combine map fst snd].
      rewrite map_repeat.
      rewrite combine_repeat_l, map_map. reflexivity.
    + cbn [List.length repeat Nat.eqb negb rbind squeeze0 hd].
      unfold einsum_nj_jk. cbn [map List.length].
      rewrite !length_map.
      cbn [Nat.eqb negb rbind]. rewrite repeat_length, Nat.eqb_refl.
      cbn [negb rbind squeeze0 hd].
      unfold einsum_nk_k, einsum_nk_nk. cbn [combine map fst snd].
      rewrite <- (length_map (fun a_n => vecmat a_n G) bs).
      rewrite combine_repeat_r, !map_map. reflexivity.
Qed.

Section WithRing.
Hypothesis Fring :
  ring_theory f0 f1 fadd fmul (fun x y => fadd x (fopp y)) fopp (@eq F).

Add Ring F_ring_metric : Fring.

Lemma einsum_il_nk_single (t v : vec) :
  einsum_il_nk (to_column t) [v] = map (fun t_i => scale_l t_i v) t.
Proof.
  unfold einsum_il_nk, to_column, scale_l. rewrite map_map.
  apply map_ext. intros t_i. cbn [map hd].
  rewrite <- (map_nth_seq (fun x => fmul t_i x) f0 v).
  apply map_ext. intros k. unfold fsum; cbn. fold f0. ring.
Qed.

(** X14: a geodesic given by one initial tangent vector [v]: [geodesic]
    calls nothing, and the path it returns casts the times asked for to
    [float32] and calls [exp] once, on the batch of the vectors
    [cast(t_i) * v], at the initial point. *)
Theorem metric_geodesic_from_tangent_vec (initial_point v : vec)
    (tr : list event) :
  exists path,
    geodesic self (A1 initial_point) None (Some (A1 v)) tr = (Ok path, tr) /\
    forall t tr',
      let tangent_vecs :=
        map (fun t_i => map (fun x => fmul (cast_float32 t_i) x) v) t in
      path t tr' =
        (Ok (exp self (A2 tangent_vecs) (A2 [initial_point])),
         tr' ++ [EvExp (A2 tangent_vecs) (A2 [initial_point])]).
Proof.
  eexists. split; [reflexivity |].
  intros t tr'. cbn beta zeta. cbn [to_ndarray2].
  rewrite einsum_il_nk_single, map_map. reflexivity.
Qed.

(** The quadratic form of [inner_product], index by index. *)
Lemma dot_vecmat_index (a b : vec) (G : mat) :
  List.length a = List.length G ->
  List.length b = List.length G ->
  List.length (hd [] G) = List.length G ->
  dot (vecmat a G) b =
  fsum (map (fun k =>
          fsum (map (fun j =>
                  fmul (fmul (nth j a f0) (nth k (nth j G []) f0))
                       (nth k b f0))
                (seq 0 (List.length G))))
        (seq 0 (List.length G))).
Proof.
  intros Ha Hb Hd. unfold dot, vecmat. rewrite Hd.
  rewrite (combine_nth_seq f0 f0)
    by (rewrite length_map, length_seq; symmetry; exact Hb).
  rewrite Hb, map_map. cbn [fst snd].
  apply f_equal. apply map_ext_in. intros k Hk. apply in_seq in Hk.
  rewrite nth_map_seq by lia.
  rewrite (combine_nth_seq (A:=F) (C:=vec) f0 [] a G Ha), map_map.
  cbn [fst snd].
  rewrite (fsum_mul_r Fring). reflexivity.
Qed.

(** X12: where the inner-product matrix is symmetric, the inner product of
    two tangent vectors does not depend on their order. *)
Theorem inner_product_symmetric (a b : vec) (base_point : arr) (G : mat) :
  to_ndarray3 (inner_product_matrix self base_point) = [G] ->
  List.length a = List.length G ->
  List.length b = List.length G ->
  List.length (hd [] G) = List.length G ->
  (forall j k, nth k (nth j G []) f0 = nth j (nth k G []) f0) ->
  inner_product self (A1 a) (A1 b) base_point =
  inner_product self (A1 b) (A1 a) base_point.
Proof.
  intros HG Ha Hb Hd Hsym. unfold inner_product. rewrite HG.
  cbn [to_ndarray2 List.length Nat.eqb negb rbind].
  unfold einsum_nj_njk. cbn [combine map fst snd List.length Nat.eqb negb rbind].
  unfold einsum_nk_nk, to_column. cbn [combine map fst snd].
  do 3 f_equal.
  rewrite (dot_vecmat_index a b G Ha Hb Hd), (dot_vecmat_index b a G Hb Ha Hd).
  rewrite (fsum_exchange Fring).
  apply f_equal. apply map_ext. intros x.
  apply f_equal. apply map_ext. intros y.
  rewrite (Hsym x y). ring.
Qed.

Lemma dot_zero_r (u p : vec) : dot u (map (fun _ => f0) p) = f0.
Proof.
  unfold dot. apply (fsum_all_zero Fring).
  apply Forall_forall. intros x Hx.
  apply in_map_iff in Hx. destruct Hx as [[a z] [<- Hin]]. cbn [fst snd].
  apply in_combine_r in Hin. apply in_map_iff in Hin.
  destruct Hin as [y [<- _]]. ring.
Qed.

(** X13: where the logarithm of a point at itself is the zero vector, the
    squared distance and the distance from the point to itself are zero
    (the latter as soon as the square root of zero is zero). *)
Theorem dist_to_itself (p : vec) (tr : list event) :
  List.length (to_ndarray3 (inner_product_matrix self (A1 p))) = 1 ->
  log self (A1 p) (A1 p) = [map (fun _ => f0) p] ->
  fsqrt f0 = f0 ->
  fst (squared_dist self (A1 p) (A1 p) tr) = Ok [[f0]] /\
  fst (dist self (A1 p) (A1 p) tr) = Ok [[f0]].
Proof.
  intros Hmat Hlog Hsqrt.
  rewrite dist_run, squared_dist_run. cbn [fst].
  rewrite (squared_norm_single_matrix self _ _ Hmat), Hlog.
  cbn [map rbind sqrt2]. rewrite dot_zero_r, Hsqrt. split; reflexivity.
Qed.

End WithRing.

End InnerProductFacts.

Section NeighborFacts.
Context {B : Backend}.
Variable self : RiemannianMetric.t.

Import RiemannianMetric.

Hypothesis log_vectorized : forall p qs,
  log self (A2 qs) (A1 p) =
  List.concat (map (fun q => log self (A1 q) (A1 p)) qs).
Hypothesis log_single : forall p q,
  List.length (log self (A1 q) (A1 p)) = 1.
Hypothesis matrix_single : forall p,
  List.length (to_ndarray3 (inner_product_matrix self (A1 p))) = 1.

Section Maximum.
Hypothesis maximum_assoc : forall x y z : F,
  fmaximum x (fmaximum y z) = fmaximum (fmaximum x y) z.
Hypothesis maximum_comm : forall x y : F, fmaximum x y = fmaximum y x.
Hypothesis maximum_idem : forall x : F, fmaximum x x = x.
Hypothesis maximum_selects : forall x y : F,
  fmaximum x y = x \/ fmaximum x y = y.
Hypothesis sqrt_nonneg : forall x : F, fmaximum (of_Q 0) (fsqrt x) = fsqrt x.

Lemma fold_maximum_above_start (l : list F) (a : F) :
  fmaximum a (fold_left fmaximum l a) = fold_left fmaximum l a.
Proof.
  revert a; induction l as [| y l IH]; intros a; cbn [fold_left].
  - apply maximum_idem.
  - rewrite <- (IH (fmaximum a y)).
    rewrite maximum_assoc, (maximum_assoc a a y), maximum_idem. reflexivity.
Qed.

Lemma fold_maximum_absorbs (l : list F) (a x : F) :
  fmaximum x a = a ->
  fmaximum x (fold_left fmaximum l a) = fold_left fmaximum l a.
Proof.
  intros Hx. rewrite <- (fold_maximum_above_start l a).
  rewrite maximum_assoc, Hx. reflexivity.
Qed.

Lemma fold_maximum_upper_bound (l : list F) (a x : F) :
  In x (a :: l) ->
  fmaximum x (fold_left fmaximum l a) = fold_left fmaximum l a.
Proof.
  revert a; induction l as [| y l IH]; intros a Hin.
  - destruct Hin as [<- | []]. apply maximum_idem.
  - cbn [fold_left]. destruct Hin as [<- | [<- | Hin]].
    + apply fold_maximum_absorbs.
      rewrite maximum_assoc, maximum_idem. reflexivity.
    + apply fold_maximum_absorbs.
      rewrite (maximum_comm a y), maximum_assoc, maximum_idem. reflexivity.
    + apply IH. right. exact Hin.
Qed.

Lemma fold_maximum_attained (l : list F) (a : F) :
  In (fold_left fmaximum l a) (a :: l).
Proof.
  revert a; induction l as [| y l IH]; intros a; cbn [fold_left].
  - left. reflexivity.
  - destruct (IH (fmaximum a y)) as [H | H].
    + rewrite <- H.
      destruct (maximum_selects a y) as [-> | ->];
        [left | right; left]; reflexivity.
    + right. right. exact H.
Qed.

(** X15: [diameter] is at least the distance of every pair of the batch, and,
    when the batch has two points or more, it is the distance of one of
    its pairs; this for a metric whose [log] works pointwise on a batch
    and a backend whose [maximum] is associative, commutative,
    idempotent and returns one of its arguments. *)
Theorem diameter_bounds (points : batch) (tr : list event) :
  exists d,
    diameter self points tr = (Ok d, tr ++ diameter_events points) /\
    (forall pq, In pq (later_pairs points) -> fmaximum (dist1 self pq) d = d) /\
    (2 <= List.length points ->
     exists pq, In pq (later_pairs points) /\ d = dist1 self pq).
Proof.
  pose proof (diameter_loop_run self maximum_assoc log_vectorized log_single
                matrix_single points [] (of_Q 0) tr) as Hrun.
  cbn [app List.length] in Hrun.
  eexists. split; [exact Hrun |]. split.
  - intros pq Hin. apply fold_maximum_upper_bound.
    right. apply in_map. exact Hin.
  - intros Hlen.
    destruct (later_pairs points) as [| [p q] pairs] eqn:Hpairs.
    + exfalso. destruct points as [| p0 [| p1 rest]]; cbn in Hlen; try lia.
      cbn in Hpairs. discriminate.
    + cbn [map fold_left].
      rewrite (dist1_sqrt self log_single matrix_single p q), sqrt_nonneg.
      rewrite <- (dist1_sqrt self log_single matrix_single p q).
      destruct (fold_maximum_attained (map (dist1 self) pairs)
                  (dist1 self (p, q))) as [H | H].
      * exists (p, q). split; [left; reflexivity | symmetry; exact H].
      * apply in_map_iff in H. destruct H as [pq [Hpq Hin]].
        exists pq. split; [right; exact Hin | symmetry; exact Hpq].
Qed.

End Maximum.

Section Argmin.
Hypothesis lt_trans : forall x y z : F,
  fltb x y = true -> fltb y z = true -> fltb x z = true.
Hypothesis lt_asym : forall x y : F, fltb x y = true -> fltb y x = false.

Lemma lt_irrefl (x : F) : fltb x x = false.
Proof.
  destruct (fltb x x) eqn:E; [| reflexivity].
  rewrite (lt_asym x x E) in E. discriminate.
Qed.

Lemma not_lt_trans (x m best : F) :
  fltb x best = false -> fltb m best = true -> fltb x m = false.
Proof.
  intros Hx Hm. destruct (fltb x m) eqn:E; [| reflexivity].
  rewrite (lt_trans x m best E Hm) in Hx. discriminate.
Qed.

Lemma argmin_scan_spec (l : list F) :
  forall best best_index index,
    best_index < index ->
    let r := argmin_scan best best_index index l in
    (r = best_index /\ Forall (fun x => fltb x best = false) l) \/
    (index <= r < index + List.length l /\
     fltb (nth (r - index) l best) best = true /\
     Forall (fun x => fltb x (nth (r - index) l best) = false) l).
Proof.
  induction l as [| x l IH]; intros best best_index index Hlt; cbn zeta.
  - left. split; [reflexivity | constructor].
  - cbn [argmin_scan]. destruct (fltb x best) eqn:Hx.
    + right.
      destruct (IH x index (S index) ltac:(lia)) as [[Hr Hall] | (Hr & Hm & Hall)].
      * rewrite Hr. replace (index - index) with 0 by lia. cbn [nth List.length].
        split; [lia |]. split; [exact Hx |].
        constructor; [apply lt_irrefl | exact Hall].
      * set (r := argmin_scan x index (S index) l) in *.
        replace (r - index) with (S (r - S index)) by lia.
        cbn [nth List.length].
        assert (Hnth : nth (r - S index) l best = nth (r - S index) l x)
          by (apply nth_indep; lia).
        rewrite Hnth. split; [lia |].
        split; [exact (lt_trans _ _ _ Hm Hx) |].
        constructor; [exact (lt_asym _ _ Hm) | exact Hall].
    + destruct (IH best best_index (S index) ltac:(lia))
        as [[Hr Hall] | (Hr & Hm & Hall)].
      * left. split; [exact Hr | constructor; assumption].
      * right.
        set (r := argmin_scan best best_index (S index) l) in *.
        replace (r - index) with (S (r - S index)) by lia.
        cbn [nth List.length].
        split; [lia |]. split; [exact Hm |].
        constructor; [exact (not_lt_trans _ _ _ Hx Hm) | exact Hall].
Qed.

(** X16: [closest_neighbor_index] calls [dist] once, on the point and all the
    neighbors.  For a non-empty batch of neighbors it returns an index of
    the batch, and no neighbor is strictly closer to the point than the
    one at that index; for an empty batch it raises the [ValueError] of
    [argmin].  This for a metric whose [log] works pointwise on a batch
    and a backend whose [<] is transitive and asymmetric. *)
Theorem closest_neighbor_index_is_closest (point : vec) (neighbors : batch)
    (tr : list event) :
  let called :=
    tr ++ [EvDist (A1 point) (A2 neighbors);
           EvSquaredDist (A1 point) (A2 neighbors);
           EvLog (A2 neighbors) (A1 point)] in
  match neighbors with
  | [] =>
      closest_neighbor_index self (A1 point) (A2 neighbors) tr =
        (Raise (ValueError "attempt to get argmin of an empty sequence"),
         called)
  | _ :: _ =>
      exists i,
        closest_neighbor_index self (A1 point) (A2 neighbors) tr =
          (Ok i, called) /\
        i < List.length neighbors /\
        forall q, In q neighbors ->
          fltb (dist1 self (point, q))
               (dist1 self (point, nth i neighbors [])) = false
  end.
Proof.
  cbv zeta. unfold closest_neighbor_index, bind, lift.
  rewrite (dist_batch self log_vectorized log_single matrix_single).
  destruct neighbors as [| q qs]; [reflexivity |].
  unfold argmin. rewrite concat_singletons. cbn [map].
  set (d := fun q0 => dist1 self (point, q0)).
  change (dist1 self (point, q)) with (d q).
  eexists. split; [reflexivity |].
  destruct (argmin_scan_spec (map d qs) (d q) 0 1 ltac:(lia))
    as [[Hr Hall] | (Hr & Hm & Hall)]; cbv zeta in *.
  - rewrite Hr. cbn [nth List.length]. split; [lia |].
    intros q0 [<- | Hin]; [apply lt_irrefl |].
    rewrite Forall_forall in Hall.
    exact (Hall (d q0) (in_map d qs q0 Hin)).
  - set (r := argmin_scan (d q) 0 1 (map d qs)) in *.
    rewrite length_map in Hr.
    assert (Hnth : nth (r - 1) (map d qs) (d q) = d (nth r (q :: qs) [])).
    { destruct r as [| r']; [lia |]. cbn [nth].
      replace (S r' - 1) with r' by lia.
      rewrite (nth_indep _ (d q) (d [])) by (rewrite length_map; lia).
      apply map_nth. }
    rewrite Hnth in Hm, Hall. fold (d (nth r (q :: qs) [])).
    split; [cbn [List.length]; lia |].
    intros q0 [<- | Hin]; [exact (lt_asym _ _ Hm) |].
    rewrite Forall_forall in Hall.
    exact (Hall (d q0) (in_map d qs q0 Hin)).
Qed.

End Argmin.

End NeighborFacts.

Section ConnectionInitFacts.
Context {B : Backend}.

Import ConnectionInit.

(** X6: when no point type is given, [Connection.__init__] reads it off the
    number of axes of [shape]: a vector for one axis, which is also the
    default shape [(dim,)], and a matrix for two or three axes.  For any
    other number of axes the lookup fails with a [KeyError], before
    [dim] is checked. *)
Theorem init_point_type_of_shape
    (dim : Connection.py_value) (shape : option (list Connection.py_value))
    (default_coords_type : string) :
  let n_axes :=
    match shape with
    | None => 1
    | Some shape => List.length shape
    end in
  (forall attrs,
      __init__ dim shape None default_coords_type = Ok attrs ->
      (n_axes = 1 /\ default_point_type attrs = "vector"%string) \/
      ((n_axes = 2 \/ n_axes = 3) /\
       default_point_type attrs = "matrix"%string)) /\
  (n_axes <> 1 -> n_axes <> 2 -> n_axes <> 3 ->
   __init__ dim shape None default_coords_type = Raise (KeyError (key_of n_axes))).
Proof.
  cbv zeta. unfold __init__.
  set (shape' := match shape with None => [dim] | Some s => s end).
  assert (Hn : match shape with None => 1 | Some s => List.length s end =
               List.length shape') by (destruct shape; reflexivity).
  rewrite Hn. clear Hn.
  destruct (List.length shape') as [| [| [| [| n]]]] eqn:Hlen; cbn [POINT_TYPES rbind].
  - split; [discriminate | reflexivity].
  - split; [| intros H; contradiction].
    intros attrs H. left. split; [reflexivity |].
    destruct (Connection.check_integer dim "dim"); cbn in H; [| discriminate].
    injection H as <-. reflexivity.
  - split; [| intros _ H; contradiction].
    intros attrs H. right. split; [left; reflexivity |].
    destruct (Connection.check_integer dim "dim"); cbn in H; [| discriminate].
    injection H as <-. reflexivity.
  - split; [| intros _ _ H; contradiction].
    intros attrs H. right. split; [right; reflexivity |].
    destruct (Connection.check_integer dim "dim"); cbn in H; [| discriminate].
    injection H as <-. reflexivity.
  - split; [discriminate | reflexivity].
Qed.

End ConnectionInitFacts.

(** * Runs of the further properties on the rational backend *)

Section RationalRuns.
Import Rational.

Lemma Qc_lt_trans_b (x y z : @F QcBackend) :
  fltb x y = true -> fltb y z = true -> fltb x z = true.
Proof.
  cbn. rewrite !Qc_ltb_true. apply Qclt_trans.
Qed.

Lemma Qc_lt_asym_b (x y : @F QcBackend) :
  fltb x y = true -> fltb y x = false.
Proof.
  cbn. rewrite Qc_ltb_true, Qc_ltb_false. apply Qclt_le_weak.
Qed.

Lemma Qc_maximum_comm (x y : @F QcBackend) : fmaximum x y = fmaximum y x.
Proof.
  cbn. destruct (Qc_ltb x y) eqn:Hxy, (Qc_ltb y x) eqn:Hyx; try reflexivity.
  - apply Qc_lt_asym_b in Hxy. cbn in Hxy. congruence.
  - apply Qc_ltb_false in Hxy, Hyx. apply Qcle_antisym; assumption.
Qed.

Lemma Qc_maximum_idem (x : @F QcBackend) : fmaximum x x = x.
Proof. cbn. destruct (Qc_ltb x x); reflexivity. Qed.

Lemma Qc_maximum_selects (x y : @F QcBackend) :
  fmaximum x y = x \/ fmaximum x y = y.
Proof. cbn. destruct (Qc_ltb x y); auto. Qed.

Lemma Qc_half (x : @F QcBackend) :
  fadd (fmul (fdiv (of_Q 1) (of_Q 2)) x) (fmul (fdiv (of_Q 1) (of_Q 2)) x) = x.
Proof.
  change (Qcplus (Qcmult (Qcdiv 1%Qc (Q2Qc 2)) x)
                 (Qcmult (Qcdiv 1%Qc (Q2Qc 2)) x) = x).
  assert (H2 : Q2Qc 2 = (1 + 1)%Qc) by (apply Qc_decomp; reflexivity).
  assert (Hne : (1 + 1)%Qc <> 0%Qc).
  { intros H. apply (f_equal this) in H. vm_compute in H. discriminate. }
  rewrite H2. field. exact Hne.
Qed.

Lemma Qc_minus_one : @of_Q QcBackend (-1) = fopp (of_Q 1).
Proof. cbn. apply Qc_decomp. reflexivity. Qed.

Lemma Qc_nine_scale (x : @F QcBackend) :
  fmul (fdiv x (fpow (of_Z 3) (Q2Qc 2))) (fpow (of_Z 3) (Q2Qc 2)) = x.
Proof.
  change (Qcmult (Qcdiv x (Qc_pow (of_Z 3) (Q2Qc 2)))
                 (Qc_pow (of_Z 3) (Q2Qc 2)) = x).
  assert (Hs : Qc_pow (of_Z 3) (Q2Qc 2) <> 0%Qc).
  { intros H. apply (f_equal this) in H. vm_compute in H. discriminate. }
  generalize dependent (Qc_pow (of_Z 3) (Q2Qc 2)). intros s Hs.
  field. exact Hs.
Qed.

Lemma ladder_exact_on_flat_connection_witness :
  exists r,
    Connection.ladder_parallel_transport flat_connection
      (qv [1; 2]%Q) (qv [0; 0]%Q) (qv [5; 5]%Q) (Connection.PyInt 3) "pole"
      (Q2Qc 2) true = Ok r /\
    Connection.transported_tangent_vec r = qv [1; 2]%Q.
Proof.
  exact (ladder_exact_on_flat_connection flat_connection Qc_ring
           (fun v p => eq_refl) (fun q p => eq_refl) Qc_half Qc_minus_one
           (qv [1; 2]%Q) (qv [0; 0]%Q) (qv [5; 5]%Q) 3 "pole" (Q2Qc 2) true
           Qc_nine_scale eq_refl eq_refl ltac:(lia) ltac:(vm_compute; reflexivity)
           (or_introl eq_refl)).
Defined.

Lemma ladder_trajectory_shape_witness :
  exists r,
    Connection.ladder_parallel_transport flat_connection
      (qv [1; 2]%Q) (qv [0; 0]%Q) (qv [5; 5]%Q) (Connection.PyInt 3) "schild"
      (Q2Qc 1) true = Ok r /\
    List.length (Connection.ladder_trajectory r) = 3 /\
    Forall (fun geodesics => List.length geodesics = 4)
           (Connection.ladder_trajectory r).
Proof.
  exact (ladder_trajectory_shape flat_connection
           (qv [1; 2]%Q) (qv [0; 0]%Q) (qv [5; 5]%Q) 3 "schild" (Q2Qc 1) true
           ltac:(lia) ltac:(vm_compute; reflexivity) (or_intror eq_refl)).
Defined.

Lemma ladder_unknown_scheme_witness :
  Connection.ladder_parallel_transport flat_connection
    (qv [1; 2]%Q) (qv [0; 0]%Q) (qv [5; 5]%Q) (Connection.PyInt 2) "euler"
    (Q2Qc 1) false = Raise (KeyError "euler").
Proof.
  apply (ladder_unknown_scheme flat_connection);
    [lia | vm_compute; reflexivity | discriminate | discriminate].
Defined.

Lemma geodesic_through_end_point_witness :
  exists path,
    Connection.geodesic flat_connection (qv [0; 0]%Q) (Some (qv [3; 4]%Q)) None
      = Ok path /\
    (forall t, List.length (path t) = List.length t) /\
    path [of_Q 1] = [qv [3; 4]%Q] /\
    path [of_Q 0] = [qv [0; 0]%Q].
Proof.
  apply (geodesic_through_end_point flat_connection).
  - cbn [flat_connection Connection.exp Connection.log].
    unfold vadd, vsub, qv. cbn [map combine fst snd].
    repeat f_equal; apply Qc_is_canon; reflexivity.
  - cbn [flat_connection Connection.exp Connection.log].
    unfold vadd, vsub, qv. cbn [map combine fst snd].
    repeat f_equal; apply Qc_is_canon; reflexivity.
  - exact Qcmult_1_l.
  - exact Qcmult_0_l.
Defined.

Lemma geodesic_equation_flat_witness :
  Connection.geodesic_equation RationalFlat.straight_connection
    (qv [0; 0]%Q, qv [1; 2]%Q) = [qv [1; 2]%Q; qv [0; 0]%Q].
Proof.
  apply (geodesic_equation_flat Qc_ring RationalFlat.straight_connection).
  repeat constructor.
Defined.

Lemma descent_never_worsens_witness :
  exists vars tr',
    RiemannianMetric.descent circle_metric circle_points None 2
      (Q2Qc (1 # 1000000000000)) (qv [0]%Q) [] = (Ok vars, tr') /\
    RiemannianMetric.norm_current_tangent_mean vars =
      RiemannianMetric.linalg_norm (RiemannianMetric.current_tangent_mean vars).
Proof.
  destruct (descent_never_worsens circle_metric circle_points None 2
              (Q2Qc (1 # 1000000000000)) (qv [0]%Q) [] Qc_lt_trans_b)
    as (vars & tr' & Hrun & Hnorm & _).
  exists vars, tr'. split; [exact Hrun | exact Hnorm].
Defined.

Lemma diameter_bounds_witness :
  exists d,
    fst (RiemannianMetric.diameter euclidean_metric
           [qv [0; 0]%Q; qv [3; 4]%Q; qv [6; 8]%Q] []) = Ok d /\
    fmaximum
      (RiemannianMetric.dist1 euclidean_metric (qv [0; 0]%Q, qv [3; 4]%Q)) d
      = d.
Proof.
  destruct (diameter_bounds euclidean_metric
              euclidean_log_vectorized (fun p q => eq_refl) (fun p => eq_refl)
              Qc_maximum_assoc Qc_maximum_comm Qc_maximum_idem
              Qc_maximum_selects Qc_sqrt_nonneg
              [qv [0; 0]%Q; qv [3; 4]%Q; qv [6; 8]%Q] [])
    as (d & Hrun & Hbound & _).
  exists d. rewrite Hrun. split; [reflexivity |].
  apply Hbound. left. reflexivity.
Defined.

Lemma closest_neighbor_index_is_closest_witness :
  exists i,
    fst (closest_neighbor_index euclidean_metric
           (RiemannianMetric.A1 (qv [0; 0]%Q))
           (RiemannianMetric.A2 [qv [3; 4]%Q; qv [1; 0]%Q; qv [6; 8]%Q]) [])
      = Ok i /\
    i < 3.
Proof.
  destruct (closest_neighbor_index_is_closest euclidean_metric
              euclidean_log_vectorized (fun p q => eq_refl) (fun p => eq_refl)
              Qc_lt_trans_b Qc_lt_asym_b
              (qv [0; 0]%Q) [qv [3; 4]%Q; qv [1; 0]%Q; qv [6; 8]%Q] [])
    as (i & Hrun & Hi & _).
  exists i. rewrite Hrun. split; [reflexivity | exact Hi].
Defined.

Lemma inner_product_broadcast_is_replication_witness :
  RiemannianMetric.inner_product euclidean_metric
    (RiemannianMetric.A1 (qv [1; 2]%Q))
    (RiemannianMetric.A2 [qv [1; 0]%Q; qv [0; 1]%Q; qv [1; 1]%Q])
    (RiemannianMetric.A1 (qv [0; 0]%Q)) =
  RiemannianMetric.inner_product euclidean_metric
    (RiemannianMetric.A2 (repeat (qv [1; 2]%Q) 3))
    (RiemannianMetric.A2 [qv [1; 0]%Q; qv [0; 1]%Q; qv [1; 1]%Q])
    (RiemannianMetric.A1 (qv [0; 0]%Q)).
Proof.
  exact (proj1 (inner_product_broadcast_is_replication euclidean_metric
                  (qv [1; 2]%Q) [qv [1; 0]%Q; qv [0; 1]%Q; qv [1; 1]%Q]
                  (RiemannianMetric.A1 (qv [0; 0]%Q)) eq_refl)).
Defined.

Lemma inner_product_symmetric_witness :
  RiemannianMetric.inner_product euclidean_metric
    (RiemannianMetric.A1 (qv [1; 2]%Q)) (RiemannianMetric.A1 (qv [3; 5]%Q))
    (RiemannianMetric.A1 (qv [0; 0]%Q)) =
  RiemannianMetric.inner_product euclidean_metric
    (RiemannianMetric.A1 (qv [3; 5]%Q)) (RiemannianMetric.A1 (qv [1; 2]%Q))
    (RiemannianMetric.A1 (qv [0; 0]%Q)).
Proof.
  apply (@inner_product_symmetric QcBackend euclidean_metric Qc_ring
           (qv [1; 2]%Q) (qv [3; 5]%Q)
           (@RiemannianMetric.A1 QcBackend (qv [0; 0]%Q))
           (identity 2));
    try reflexivity.
  intros [| [| [| j]]] [| [| [| k]]]; reflexivity.
Defined.

(** The geodesic from the origin along [(1, 2)], at the time [0.1]: the
    time is rounded to [float32] first, to [13421773 / 2 ^ 27]. *)
Lemma metric_geodesic_from_tangent_vec_witness :
  exists path,
    RiemannianMetric.geodesic euclidean_metric
      (RiemannianMetric.A1 (qv [0; 0]%Q)) None
      (Some (RiemannianMetric.A1 (qv [1; 2]%Q))) [] = (Ok path, []) /\
    this (cast_float32 (Q2Qc (1 # 10))) = (13421773 # 134217728)%Q /\
    map (map this)
        match fst (path [Q2Qc (1 # 10)] []) with
        | Ok points => points
        | Raise _ => []
        end =
      [[13421773 # 134217728; 13421773 # 67108864]]%Q.
Proof.
  destruct (@metric_geodesic_from_tangent_vec QcBackend euclidean_metric Qc_ring
              (qv [0; 0]%Q) (qv [1; 2]%Q) []) as (path & Hrun & Hpath).
  exists path. split; [exact Hrun |].
  split; [vm_compute; reflexivity |].
  rewrite Hpath. cbn [fst]. vm_compute. reflexivity.
Defined.

(** Two iterations of the descent on the circle: a [log], then two
    pairs of an [exp] and a [log]; the first shot is along the first
    tangent mean, [33 / 400]. *)
Lemma descent_call_budget_witness :
  exists vars steps,
    RiemannianMetric.descent circle_metric circle_points None 2
      (Q2Qc (1 # 1000000000000)) (qv [0]%Q) [] =
      (Ok vars,
       RiemannianMetric.EvLog (RiemannianMetric.A2 circle_points)
         (RiemannianMetric.A1 (qv [0]%Q))
       :: flat_map
            (fun s =>
               [RiemannianMetric.EvExp (RiemannianMetric.A2 [fst s]) (snd s);
                RiemannianMetric.EvLog (RiemannianMetric.A2 circle_points)
                  (RiemannianMetric.A2
                     (RiemannianMetric.exp circle_metric
                        (RiemannianMetric.A2 [fst s]) (snd s)))])
            steps) /\
    List.length steps = 2 /\
    hd_error (map (fun s => map this (fst s)) steps) = Some [33 # 400]%Q.
Proof.
  destruct (RiemannianMetric.descent circle_metric circle_points None 2
              (Q2Qc (1 # 1000000000000)) (qv [0]%Q) []) as [run calls] eqn:Hrun.
  destruct (descent_call_budget circle_metric circle_points None 2
              (Q2Qc (1 # 1000000000000)) (qv [0]%Q) [])
    as (vars & steps & Hcalls & Hiter & _ & Hhd).
  rewrite Hrun in Hcalls. injection Hcalls as -> ->.
  exists vars, steps. split; [reflexivity |].
  assert (Hlen :
    RiemannianMetric.iter
      (final_vars (RiemannianMetric.descent circle_metric circle_points None 2
                     (Q2Qc (1 # 1000000000000)) (qv [0]%Q) [])) = 2)
    by (vm_compute; reflexivity).
  unfold final_vars in Hlen. rewrite Hrun in Hlen. cbn [fst] in Hlen.
  rewrite Hiter in Hlen. split; [exact Hlen |].
  destruct steps as [| s steps]; [discriminate Hlen |].
  injection Hhd as ->. cbn [map hd_error fst]. apply f_equal.
  vm_compute. reflexivity.
Defined.

Lemma init_point_type_of_shape_witness :
  @ConnectionInit.__init__ QcBackend (Connection.PyInt 0)
    (Some [Connection.PyInt 2; Connection.PyInt 2; Connection.PyInt 2;
           Connection.PyInt 2]) None "intrinsic" =
  Raise (KeyError "4").
Proof.
  apply (proj2 (@init_point_type_of_shape QcBackend (Connection.PyInt 0)
                  (Some [Connection.PyInt 2; Connection.PyInt 2;
                         Connection.PyInt 2; Connection.PyInt 2])
                  "intrinsic")); cbn; lia.
Defined.

Lemma improving_step_tau_at_least_one_witness :
  fltb (RiemannianMetric.tau
          (final_vars (RiemannianMetric.descent circle_metric circle_points
                         None 2 (Q2Qc (1 # 1000000000000)) (qv [0]%Q) [])))
       (of_Q 1) = false.
Proof.
  apply (improving_step_tau_at_least_one circle_metric circle_points
           (RiemannianMetric.ones 4)
           (RiemannianMetric.sum2 (RiemannianMetric.ones 4))
           (final_vars (RiemannianMetric.descent circle_metric circle_points
                          None 1 (Q2Qc (1 # 1000000000000)) (qv [0]%Q) []))
           _
           (snd (RiemannianMetric.descent circle_metric circle_points
                   None 1 (Q2Qc (1 # 1000000000000)) (qv [0]%Q) []))
           Qc_lt_asym_b).
  - reflexivity.
  - vm_compute. reflexivity.
Defined.

Lemma dist_to_itself_witness :
  fst (RiemannianMetric.dist euclidean_metric
         (RiemannianMetric.A1 (qv [3; 4]%Q)) (RiemannianMetric.A1 (qv [3; 4]%Q))
         []) = Ok [[@f0 QcBackend]].
Proof.
  apply (@dist_to_itself QcBackend euclidean_metric Qc_ring (qv [3; 4]%Q) []).
  - reflexivity.
  - cbn [euclidean_metric RiemannianMetric.log RiemannianMetric.to_ndarray2
         broadcast].
    unfold vsub, qv. cbn [map combine fst snd].
    unfold Qcminus. rewrite !Qcplus_opp_r. reflexivity.
  - apply Qc_is_canon. reflexivity.
Defined.

End RationalRuns.
